(** * kfake: the mock cluster of pkg/kfake/cluster.go

    A shallow embedding of the control plane of the mock Kafka cluster:
    the control-function registry ([Control], [ControlKey], [KeepControl],
    [tryControl], [callControl]), the administrative operations
    ([MoveTopicPartition], [AddNode], [RemoveNode],
    [ShufflePartitionLeaders]) and one iteration of the event loop ([run]).

    Conventions.
    - Go's [int32] is a [Z] with the wrap-around of the increment written
      out ([wrap32]); [int] is taken to be 64 bits wide ([wrap64]).
    - A slice is modelled by the list of its elements.  The only slice
      header that outlives an update of the map entry it was read from is
      the local [keyFns] (resp. [anyFns]) of [tryControl]; it is modelled
      by the list that was read, which stays what it was while the map
      entry changes.  Module [GoSlice] below justifies this reading on an
      explicit model of backing arrays.
    - Pointers are addresses ([nat]); a [*broker] is the [baddr] of the
      broker it points to.
    - What lies outside the file (the operating system's listeners, the
      random source, the protocol handlers, the closures of the test
      harness) is an oracle: a variable of the enclosing section. *)

From stdpp Require Import base numbers option list strings gmap fin_maps.

Local Open Scope Z_scope.

(** ** Machine integers *)

Definition wrap32 (z : Z) : Z := (z + 2 ^ 31) `mod` 2 ^ 32 - 2 ^ 31.
Definition wrap64 (z : Z) : Z := (z + 2 ^ 63) `mod` 2 ^ 64 - 2 ^ 63.

Definition maxInt32 : Z := 2 ^ 31 - 1.
Definition minInt32 : Z := - 2 ^ 31.

Definition int32 (z : Z) : Prop := minInt32 ≤ z ≤ maxInt32.

(** ** Requests, responses, errors *)

(** [kmsg.Request] is an interface; what the cluster reads from it here is
    its [Key()].  The payload is opaque. *)
Record request := mkRequest { Key : Z; payload : nat }.

(** [kmsg.Response], opaque. *)
Record response := mkResponse { rpayload : nat }.

Inductive error :=
| ErrNodeNotFound (nodeID : Z)          (* "node %d not found" *)
| ErrTopicPartitionNotFound             (* "topic/partition not found" *)
| ErrNodeExists (nodeID : Z)            (* "node %d already exists" *)
| ErrCannotRemoveAll                    (* "cannot remove all brokers" *)
| ErrUnhandledKey (k : Z)               (* "unahndled key %v" *)
| ErrListen (port : Z)                  (* net.Listen failed *)
| ErrOther (code : nat).                (* an error made by a closure or handler *)

(** The three results of a control function: [(kresp, err, handled)];
    [None] is Go's [nil]. *)
Definition fnResult : Type := option response * option error * bool.

Definition res_kresp (r : fnResult) : option response := r.1.1.
Definition res_err (r : fnResult) : option error := r.1.2.
Definition res_handled (r : fnResult) : bool := r.2.

(** ** Control functions

    A control function is a Go closure.  Running it on a request yields its
    three results, the calls it made on the cluster while it ran, in order
    ([KeepControl], [Control], [ControlKey]: the registry is all a closure
    can reach of the cluster without blocking the loop it runs in), and the
    new state of whatever the closures of the test harness share ([U]).
    [fid] names the closure. *)

Section ControlFns.
Context {U : Type}.

Inductive controlFn :=
| CFn (fid : nat) (body : request → U → fnResult * list ctlOp * U)
with ctlOp :=
| OpKeepControl
| OpControl (fn : controlFn)
| OpControlKey (key : Z) (fn : controlFn).

Definition fid (fn : controlFn) : nat := match fn with CFn i _ => i end.
Definition body (fn : controlFn) : request → U → fnResult * list ctlOp * U :=
  match fn with CFn _ b => b end.
End ControlFns.
Arguments controlFn : clear implicits.
Arguments ctlOp : clear implicits.

(** ** Brokers, partitions, the cluster *)

(** A [net.Listener]: [lnId] is the index of the [net.Listen] call that
    made it, [lnPort] the port it is bound to. *)
Record listener := mkListener { lnId : nat; lnPort : Z }.

(** [broker]: the struct of the source ([c] is the back pointer to the
    cluster and is left out), with the address the struct lives at. *)
Record broker := mkBroker {
  baddr : nat;
  ln : listener;
  node : Z;        (* int32 *)
  bsIdx : nat
}.

(** Modelled from the spec: [noLeader()] is declared outside this file; the
    spec calls what it returns the "no leader" sentinel.  A partition's
    leader is that sentinel or a pointer to a broker. *)
Inductive leaderRef :=
| NoLeader
| LeaderAt (addr : nat).

(** Modelled from the spec: [partData] is declared outside this file.  The
    spec gives it a current leader and an epoch counter.  The counter is a
    machine integer, the leader epoch of the protocol, an [int32]: the
    increment of [shufflePartitionsLocked] wraps around ([wrap32]). *)
Record partData := mkPartData { leader : leaderRef; epoch : Z (* int32 *) }.

(** The fields of [cfg] this file reads or writes. *)
Record cfg := mkCfg { nbrokers : Z; ports : list Z }.

Section ClusterState.
Context {U : Type}.

(** [Cluster].  [tps] is [c.data.tps], a map from topic to partition to
    [*partData]; it is modelled as one finite map on (topic, partition).
    The last four fields are not of the struct: they are the state of the
    world around it (how many numbers the random source has given, the
    next free address, how many listeners have been asked for, which
    listeners are closed). *)
Record Cluster := mkCluster {
  ccfg : cfg;
  controller : option nat;
  bs : list broker;
  control : gmap Z (list (controlFn U));
  keepCurrentControl : bool;
  tps : gmap (string * Z) partData;
  dead : bool;
  rngPos : nat;
  nextAddr : nat;
  lnNext : nat;
  lnClosed : gset nat
}.

Definition set_control (m : gmap Z (list (controlFn U))) (c : Cluster) : Cluster :=
  mkCluster (ccfg c) (controller c) (bs c) m (keepCurrentControl c) (tps c)
            (dead c) (rngPos c) (nextAddr c) (lnNext c) (lnClosed c).

Definition set_keep (k : bool) (c : Cluster) : Cluster :=
  mkCluster (ccfg c) (controller c) (bs c) (control c) k (tps c)
            (dead c) (rngPos c) (nextAddr c) (lnNext c) (lnClosed c).

Definition set_tps (t : gmap (string * Z) partData) (c : Cluster) : Cluster :=
  mkCluster (ccfg c) (controller c) (bs c) (control c) (keepCurrentControl c) t
            (dead c) (rngPos c) (nextAddr c) (lnNext c) (lnClosed c).

Definition set_rngPos (n : nat) (c : Cluster) : Cluster :=
  mkCluster (ccfg c) (controller c) (bs c) (control c) (keepCurrentControl c) (tps c)
            (dead c) n (nextAddr c) (lnNext c) (lnClosed c).

(** *** The control registry *)

(** [c.control[key]]: a missing key reads as the nil slice. *)
Definition controlAt (c : Cluster) (key : Z) : list (controlFn U) :=
  default [] (control c !! key).

(** [Control]: [c.control[-1] = append(c.control[-1], fn)]. *)
Definition Control (fn : controlFn U) (c : Cluster) : Cluster :=
  set_control (<[(-1) := controlAt c (-1) ++ [fn]]> (control c)) c.

(** [ControlKey]: [c.control[key] = append(c.control[key], fn)]. *)
Definition ControlKey (key : Z) (fn : controlFn U) (c : Cluster) : Cluster :=
  set_control (<[key := controlAt c key ++ [fn]]> (control c)) c.

(** [KeepControl]: [c.keepCurrentControl.Swap(true)]. *)
Definition KeepControl (c : Cluster) : Cluster := set_keep true c.

(** One call a running closure makes on the cluster. *)
Definition runOp (c : Cluster) (op : ctlOp U) : Cluster :=
  match op with
  | OpKeepControl => KeepControl c
  | OpControl fn => Control fn c
  | OpControlKey key fn => ControlKey key fn c
  end.

(** [callControl]: reset the flag, run [fn] (its calls on the cluster
    take effect while it runs), then the deferred function: if [handled],
    swap the flag to false and, if it was set, append [fn] to
    [c.control[key]].  When [handled] is false the [&&] does not
    evaluate the swap. *)
Definition callControl (key : Z) (req : request) (fn : controlFn U)
           (c : Cluster) (u : U) : fnResult * Cluster * U :=
  let c0 := set_keep false c in
  let '(r, ops, u') := body fn req u in
  let c1 := foldl runOp c0 ops in
  let c2 :=
    if res_handled r then
      let kept := keepCurrentControl c1 in
      let c1' := set_keep false c1 in
      if kept
      then set_control (<[key := controlAt c1' key ++ [fn]]> (control c1')) c1'
      else c1'
    else c1 in
  (r, c2, u').

(** The state a loop of [tryControl] carries: the named results, the
    cluster, the harness state, and the calls made so far, oldest first:
    the key the function was called under, the function, and the harness
    state it was called in. *)
Record tried := mkTried {
  t_res : fnResult;
  t_c : Cluster;
  t_u : U;
  t_calls : list (Z * controlFn U * U)
}.

(** [for i, fn := range all { ... }], entered at index [i] with [fns]
    left to visit.  On [handled] the map entry is overwritten with
    [append(all[:i], all[i+1:]...)] and the function returns. *)
Fixpoint tryFns (key : Z) (kreq : request) (all : list (controlFn U))
         (i : nat) (fns : list (controlFn U)) (st : tried) : tried :=
  match fns with
  | [] => st
  | fn :: rest =>
      let '(r, c, u) := callControl key kreq fn (t_c st) (t_u st) in
      let calls := t_calls st ++ [(key, fn, t_u st)] in
      if res_handled r then
        mkTried r
          (set_control (<[key := take i all ++ drop (S i) all]> (control c)) c)
          u calls
      else tryFns key kreq all (S i) rest (mkTried r c u calls)
  end.

(** [tryControl].  The named results start as [(nil, nil, false)] and
    keep what the last call assigned; [handled] is true on return exactly
    when a loop returned early. *)
Definition tryControl (kreq : request) (c : Cluster) (u : U) : tried :=
  let st0 := mkTried (None, None, false) c u [] in
  if decide (size (control c) = 0%nat) then st0
  else
    let keyFns := controlAt c (Key kreq) in
    let st1 := tryFns (Key kreq) kreq keyFns 0 keyFns st0 in
    if res_handled (t_res st1) then st1
    else
      let anyFns := controlAt (t_c st1) (-1) in
      tryFns (-1) kreq anyFns 0 anyFns st1.

(** What the call recorded as [e] returned, on the request [kreq]. *)
Definition entryRes (kreq : request) (e : Z * controlFn U * U) : fnResult :=
  (body e.1.2 kreq e.2).1.1.

(** The calls the call recorded as [e] made on the cluster while it ran. *)
Definition entryOps (kreq : request) (e : Z * controlFn U * U) : list (ctlOp U) :=
  (body e.1.2 kreq e.2).1.2.
End ClusterState.
Arguments Cluster : clear implicits.
Arguments tried : clear implicits.

(** ** The topology and its administrative operations *)

Section Topology.
Context {U : Type}.

(** The random source: [randSrc k] is the [k]-th number it gives.
    [rand.Intn(n)] is that number reduced below [n]. *)
Variable randSrc : nat → nat.

(** The operating system: [osListen port k] is what the [k]-th call of
    [net.Listen] does when asked for [port]: it fails, or binds a port. *)
Variable osListen : Z → nat → option Z.

Definition set_bs (l : list broker) (c : Cluster U) : Cluster U :=
  mkCluster (ccfg c) (controller c) l (control c) (keepCurrentControl c) (tps c)
            (dead c) (rngPos c) (nextAddr c) (lnNext c) (lnClosed c).

Definition set_nbrokers (n : Z) (c : Cluster U) : Cluster U :=
  mkCluster (mkCfg n (ports (ccfg c))) (controller c) (bs c) (control c)
            (keepCurrentControl c) (tps c)
            (dead c) (rngPos c) (nextAddr c) (lnNext c) (lnClosed c).

Definition set_controller (p : option nat) (c : Cluster U) : Cluster U :=
  mkCluster (ccfg c) p (bs c) (control c) (keepCurrentControl c) (tps c)
            (dead c) (rngPos c) (nextAddr c) (lnNext c) (lnClosed c).

Definition set_dead (d : bool) (c : Cluster U) : Cluster U :=
  mkCluster (ccfg c) (controller c) (bs c) (control c) (keepCurrentControl c) (tps c)
            d (rngPos c) (nextAddr c) (lnNext c) (lnClosed c).

Definition set_nextAddr (n : nat) (c : Cluster U) : Cluster U :=
  mkCluster (ccfg c) (controller c) (bs c) (control c) (keepCurrentControl c) (tps c)
            (dead c) (rngPos c) n (lnNext c) (lnClosed c).

Definition set_lnNext (n : nat) (c : Cluster U) : Cluster U :=
  mkCluster (ccfg c) (controller c) (bs c) (control c) (keepCurrentControl c) (tps c)
            (dead c) (rngPos c) (nextAddr c) n (lnClosed c).

Definition set_lnClosed (s : gset nat) (c : Cluster U) : Cluster U :=
  mkCluster (ccfg c) (controller c) (bs c) (control c) (keepCurrentControl c) (tps c)
            (dead c) (rngPos c) (nextAddr c) (lnNext c) s.

(** [newListener(port)]: one call of [net.Listen]. *)
Definition newListener (port : Z) (c : Cluster U) : option listener * Cluster U :=
  let k := lnNext c in
  (mkListener k <$> osListen port k, set_lnNext (S k) c).

(** [ln.Close()]. *)
Definition closeListener (l : listener) (c : Cluster U) : Cluster U :=
  set_lnClosed ({[lnId l]} ∪ lnClosed c) c.

(** The body of the closure of [shufflePartitionsLocked], on one
    partition, with [pos] numbers already taken from the random source. *)
Definition shuffleOne (brokers : list broker) (p : partData) (pos : nat)
  : partData * nat :=
  match brokers with
  | [] => (mkPartData NoLeader (wrap32 (epoch p + 1)), pos)
  | b0 :: _ =>
      let i := (randSrc pos `mod` length brokers)%nat in
      (mkPartData (LeaderAt (baddr (default b0 (brokers !! i))))
                  (wrap32 (epoch p + 1)),
       S pos)
  end.

(** Modelled from the spec: [tps.each] is declared outside this file; it
    calls the closure once on every partition of the topology.  Here it
    visits the partitions in the order of [map_to_list]. *)
Fixpoint shuffleEach (brokers : list broker)
         (l : list (string * Z * partData)) (pos : nat)
  : list (string * Z * partData) * nat :=
  match l with
  | [] => ([], pos)
  | (k, p) :: l' =>
      let '(p', pos') := shuffleOne brokers p pos in
      let '(r, pos'') := shuffleEach brokers l' pos' in
      ((k, p') :: r, pos'')
  end.

Definition shufflePartitionsLocked (c : Cluster U) : Cluster U :=
  let '(l, pos) := shuffleEach (bs c) (map_to_list (tps c)) (rngPos c) in
  set_rngPos pos (set_tps (list_to_map l) c).

(** [ShufflePartitionLeaders]: the closure handed to [admin]. *)
Definition ShufflePartitionLeaders (c : Cluster U) : Cluster U :=
  shufflePartitionsLocked c.

(** Modelled from the spec: [tps.getp] is declared outside this file; it
    looks the partition of the topic up and says whether it exists. *)
Definition getp (c : Cluster U) (topic : string) (partition : Z) : option partData :=
  tps c !! (topic, partition).

(** [MoveTopicPartition]: the closure handed to [admin], with the error
    it leaves in [err]. *)
Definition MoveTopicPartition (topic : string) (partition nodeID : Z)
           (c : Cluster U) : option error * Cluster U :=
  match find (λ b, node b =? nodeID) (bs c) with
  | None => (Some (ErrNodeNotFound nodeID), c)
  | Some br =>
      match getp c topic partition with
      | None => (Some ErrTopicPartitionNotFound, c)
      | Some pd =>
          (None,
           set_tps (<[(topic, partition) := mkPartData (LeaderAt (baddr br)) (epoch pd)]>
                      (tps c)) c)
      end
  end.

(** The search of [AddNode] for the greatest node ID: start from
    [c.bs[0].node], then [for _, b := range c.bs[1:]]. *)
Definition maxNode (b0 : broker) (rest : list broker) : Z :=
  foldl (λ m b, if node b >? m then node b else m) (node b0) rest.

(** The first part of [AddNode]: the node ID the new broker gets, or
    [None] when the closure returns with "already exists". *)
Definition assignNodeID (nodeID : Z) (brokers : list broker) : option Z :=
  if nodeID >=? 0 then
    if existsb (λ b, node b =? nodeID) brokers then None else Some nodeID
  else
    match brokers with
    | b0 :: rest => Some (wrap32 (maxNode b0 rest + 1))
    | [] => Some 0
    end.

(** [AddNode]: the closure handed to [admin], with the three values the
    function returns ([nodeID], [port], [err]). *)
Definition AddNode (nodeID port : Z) (c : Cluster U)
  : (Z * Z * option error) * Cluster U :=
  match assignNodeID nodeID (bs c) with
  | None => ((nodeID, port, Some (ErrNodeExists nodeID)), c)
  | Some nodeID' =>
      let port1 := if port <? 0 then 0 else port in
      match newListener port1 c with
      | (None, c1) => ((nodeID', port1, Some (ErrListen port1)), c1)
      | (Some l, c1) =>
          let b := mkBroker (nextAddr c1) l nodeID' (length (bs c1)) in
          let c2 := set_nextAddr (S (nextAddr c1)) c1 in
          let c3 := set_bs (bs c2 ++ [b]) c2 in
          let c4 := set_nbrokers (wrap64 (nbrokers (ccfg c3) + 1)) c3 in
          ((nodeID', lnPort l, None), shufflePartitionsLocked c4)
      end
  end.

Definition set_bsIdx (i : nat) (b : broker) : broker :=
  mkBroker (baddr b) (ln b) (node b) i.

(** [RemoveNode]: the closure handed to [admin], with the error it leaves
    in [err].  [list_find] gives the first index whose broker has the
    node ID, as the [range] loop does. *)
Definition RemoveNode (nodeID : Z) (c : Cluster U) : option error * Cluster U :=
  match list_find (λ b, node b = nodeID) (bs c) with
  | None => (Some (ErrNodeNotFound nodeID), c)
  | Some (i, b) =>
      if decide (length (bs c) = 1%nat) then (Some ErrCannotRemoveAll, c)
      else
        let c1 := closeListener (ln b) c in
        let c2 := set_nbrokers (wrap64 (nbrokers (ccfg c1) - 1)) c1 in
        let lastB := default b (last (bs c2)) in
        let bs1 := <[i := lastB]> (bs c2) in
        let bs2 := <[i := set_bsIdx i lastB]> bs1 in
        let bs3 := take (length bs2 - 1) bs2 in
        (None, shufflePartitionsLocked (set_bs bs3 c2))
  end.

(** [Close]. *)
Definition Close (c : Cluster U) : Cluster U :=
  if dead c then c
  else foldl (λ c' b, closeListener (ln b) c') (set_dead true c) (bs c).

(** The loop of [NewCluster] that makes the brokers: [n] iterations left,
    [i] the loop variable.  When a listener cannot be made the body calls
    [c.Close()] and returns: the result is then the listener's error and
    the cluster as that [Close] leaves it. *)
Fixpoint newBrokers (n : nat) (i : Z) (c : Cluster U)
  : error * Cluster U + Cluster U :=
  match n with
  | O => inr c
  | S n' =>
      let port := match ports (ccfg c) with
                  | [] => 0
                  | p0 :: _ => default p0 (ports (ccfg c) !! Z.to_nat i)
                  end in
      match newListener port c with
      | (None, c1) => inl (ErrListen port, Close c1)
      | (Some l, c1) =>
          let b := mkBroker (nextAddr c1) l (wrap32 i) (length (bs c1)) in
          newBrokers n' (i + 1)
            (set_bs (bs c1 ++ [b]) (set_nextAddr (S (nextAddr c1)) c1))
      end
  end.

(** How [NewCluster] ends.  It never returns an error.  [return nil, err]
    in the loop sets the named result [c] to nil and [err] to the
    listener's error; the deferred function then finds [err] not nil and
    calls [c.Close()], which reads [c.dead] through the nil pointer.
    [NewPanicClose] keeps the error that was on its way out and the
    cluster as the [c.Close()] of the loop body left it. *)
Inductive newResult :=
| NewOk (c : Cluster U)
| NewPanicClose (e : error) (c : Cluster U)
| NewPanic.          (* c.bs[len(c.bs)-1] with no broker *)

(** The [cfg] of [NewCluster] before the options are applied. *)
Definition defaultCfg : cfg := mkCfg 3 [].

(** [NewCluster], from the [cfg] the options leave.  [world] gives the
    state of the world the cluster is made in. *)
Definition NewCluster (cfg0 : cfg) (world : nat * nat * nat) : newResult :=
  let cfg1 := match ports cfg0 with
              | [] => cfg0
              | _ => mkCfg (Z.of_nat (length (ports cfg0))) (ports cfg0)
              end in
  let '(pos, addr, lnk) := world in
  let c := mkCluster cfg1 None [] ∅ false ∅ false pos addr lnk ∅ in
  match newBrokers (Z.to_nat (nbrokers cfg1)) 0 c with
  | inl (e, c') => NewPanicClose e c'
  | inr c' =>
      match last (bs c') with
      | None => NewPanic
      | Some b => NewOk (set_controller (Some (baddr b)) c')
      end
  end.

(** *** Vocabulary of the statements about the topology *)

(** A leader chosen among [brokers]: one of them, or the sentinel when
    there is none. *)
Definition electedFrom (brokers : list broker) (l : leaderRef) : Prop :=
  match brokers with
  | [] => l = NoLeader
  | _ => ∃ b, b ∈ brokers ∧ l = LeaderAt (baddr b)
  end.

(** [c'] has the partitions of [c], each with its epoch incremented (as
    an [int32]) and a leader chosen among the brokers of [c']. *)
Definition reshuffled (c c' : Cluster U) : Prop :=
  ∀ k, match tps c !! k with
       | Some pd => ∃ pd', tps c' !! k = Some pd'
                           ∧ epoch pd' = wrap32 (epoch pd + 1)
                           ∧ electedFrom (bs c') (leader pd')
       | None => tps c' !! k = None
       end.

(** [m] is the greatest node ID of [l]. *)
Definition isMaxNode (l : list broker) (m : Z) : Prop :=
  (∃ b, b ∈ l ∧ node b = m) ∧ ∀ b, b ∈ l → node b ≤ m.

(** The node IDs of the live brokers, in the order of [c.bs]. *)
Definition nodeIDs (c : Cluster U) : list Z := node <$> bs c.
End Topology.

(** ** The event loop *)

(** [clientConn]: the connection ([ccId] names it) and the address of the
    broker it was accepted by. *)
Record clientConn := mkClientConn { ccId : nat; ccB : nat }.

Record clientReq := mkClientReq {
  cc : clientConn;
  kreq : request;
  at_ : Z;
  corr : Z
}.

Record clientResp := mkClientResp {
  kresp : option response;
  rcorr : Z;
  rerr : option error
}.

(** Modelled from the spec: [watchFetch] is declared outside this file.  A
    deferred fetch holds the request it parked ([w.creq], read by [run])
    and a [cleaned] flag.  The flag is mutable and shared by every copy of
    the pointer that sits in [watchFetchCh], so it is kept in the loop's
    state, by address ([wAddr]). *)
Record watchFetch := mkWatchFetch { wAddr : nat; wcreq : clientReq }.

(** The keys of [kmsg] that [run] switches on (the API keys of the Kafka
    protocol). *)
Definition kmsgProduce : Z := 0.
Definition kmsgFetch : Z := 1.
Definition kmsgListOffsets : Z := 2.
Definition kmsgMetadata : Z := 3.
Definition kmsgApiVersions : Z := 18.
Definition kmsgCreateTopics : Z := 19.
Definition kmsgDeleteTopics : Z := 20.
Definition kmsgInitProducerID : Z := 22.
Definition kmsgOffsetForLeaderEpoch : Z := 23.
Definition kmsgCreatePartitions : Z := 37.

Section EventLoop.
Context {U : Type}.

Definition handled2 : Type := option response * option error * Cluster U.

(** The protocol handlers, declared outside this file: each takes what
    [run] passes it and the cluster, and gives [(kresp, err)] and the
    cluster it leaves. *)
Record Handlers := mkHandlers {
  handleProduce : nat → request → Cluster U → handled2;
  handleFetch : clientReq → option watchFetch → Cluster U → handled2;
  handleListOffsets : nat → request → Cluster U → handled2;
  handleMetadata : request → Cluster U → handled2;
  handleApiVersions : request → Cluster U → handled2;
  handleCreateTopics : nat → request → Cluster U → handled2;
  handleDeleteTopics : nat → request → Cluster U → handled2;
  handleInitProducerID : request → Cluster U → handled2;
  handleOffsetForLeaderEpoch : nat → request → Cluster U → handled2;
  handleCreatePartitions : nat → request → Cluster U → handled2
}.

Variable hs : Handlers.

(** What the loop does that can be seen from outside, oldest first. *)
Inductive event :=
| EvAdmin                                   (* an admin closure was run *)
| EvCleanup (w : nat)                       (* w.cleanup(c) *)
| EvControl (key : Z) (fn : controlFn U)    (* a control function was called *)
| EvHandler (k : Z)                         (* a handler of the switch was called *)
| EvUnhandled (k : Z)                       (* the default case of the switch *)
| EvSend (conn : nat) (r : clientResp).     (* a send on cc.respCh *)

(** The state the loop works on.  [respCh] is, for each connection,
    everything sent on its [respCh] so far, oldest first; [cleaned] is
    the set of deferred fetches whose flag is set. *)
Record loopState := mkLoop {
  l_c : Cluster U;
  l_u : U;
  respCh : gmap nat (list clientResp);
  cleaned : gset nat;
  l_log : list event
}.

(** What the first [select] received. *)
Inductive item :=
| FromReqCh (creq : clientReq)
| FromWatchFetchCh (w : watchFetch)
| FromDie
| FromAdminCh (fn : Cluster U → Cluster U).

(** Which case of the second [select] ran: the send on [respCh], or the
    receive from [die]. *)
Inductive sendSel := SendRuns | DieRuns.

(** The [switch] of [run].  [r] holds [kresp] and [err] as [tryControl]
    left them: the default case assigns [err] only. *)
Definition dispatch (creq : clientReq) (w : option watchFetch)
           (r : fnResult) (c : Cluster U) : handled2 * event :=
  let rq := kreq creq in
  let k := Key rq in
  let b := ccB (cc creq) in
  if k =? kmsgProduce then (handleProduce hs b rq c, EvHandler k)
  else if k =? kmsgFetch then (handleFetch hs creq w c, EvHandler k)
  else if k =? kmsgListOffsets then (handleListOffsets hs b rq c, EvHandler k)
  else if k =? kmsgMetadata then (handleMetadata hs rq c, EvHandler k)
  else if k =? kmsgApiVersions then (handleApiVersions hs rq c, EvHandler k)
  else if k =? kmsgCreateTopics then (handleCreateTopics hs b rq c, EvHandler k)
  else if k =? kmsgDeleteTopics then (handleDeleteTopics hs b rq c, EvHandler k)
  else if k =? kmsgInitProducerID then (handleInitProducerID hs rq c, EvHandler k)
  else if k =? kmsgOffsetForLeaderEpoch
       then (handleOffsetForLeaderEpoch hs b rq c, EvHandler k)
  else if k =? kmsgCreatePartitions
       then (handleCreatePartitions hs b rq c, EvHandler k)
  else ((res_kresp r, Some (ErrUnhandledKey k), c), EvUnhandled k).

(** From [afterControl:] to the end of the loop body.  The boolean says
    whether the loop goes on. *)
Definition afterControl (creq : clientReq) (kr : option response)
           (er : option error) (sel : sendSel) (s : loopState)
  : loopState * bool :=
  match kr, er with
  | None, None => (s, true)
  | _, _ =>
      match sel with
      | SendRuns =>
          let r := mkClientResp kr (corr creq) er in
          let conn := ccId (cc creq) in
          (mkLoop (l_c s) (l_u s)
                  (<[conn := default [] (respCh s !! conn) ++ [r]]> (respCh s))
                  (cleaned s) (l_log s ++ [EvSend conn r]),
           true)
      | DieRuns => (s, false)
      end
  end.

(** From [kreq := creq.kreq] to the label [afterControl]: what [kresp]
    and [err] hold there, and the state. *)
Definition handle (creq : clientReq) (w : option watchFetch) (s : loopState)
  : option response * option error * loopState :=
  let t := tryControl (kreq creq) (l_c s) (l_u s) in
  let log1 := l_log s ++ map (λ e, EvControl e.1.1 e.1.2) (t_calls t) in
  if res_handled (t_res t) then
    (res_kresp (t_res t), res_err (t_res t),
     mkLoop (t_c t) (t_u t) (respCh s) (cleaned s) log1)
  else
    let '((kr, er, c'), ev) := dispatch creq w (t_res t) (t_c t) in
    (kr, er, mkLoop c' (t_u t) (respCh s) (cleaned s) (log1 ++ [ev])).

(** From [kreq := creq.kreq] to the end of the loop body. *)
Definition process (creq : clientReq) (w : option watchFetch)
           (sel : sendSel) (s : loopState) : loopState * bool :=
  let '(kr, er, s1) := handle creq w s in
  afterControl creq kr er sel s1.

(** Modelled from the spec: [w.cleanup] is declared outside this file;
    it marks the entry cleaned. *)
Definition cleanup (w : watchFetch) (s : loopState) : loopState :=
  mkLoop (l_c s) (l_u s) (respCh s) ({[wAddr w]} ∪ cleaned s)
         (l_log s ++ [EvCleanup (wAddr w)]).

(** One iteration of the [for] of [run]: [it] is what the first
    [select] received, [sel] the case the second one runs if it is
    reached. *)
Definition runIter (it : item) (sel : sendSel) (s : loopState)
  : loopState * bool :=
  match it with
  | FromReqCh creq => process creq None sel s
  | FromWatchFetchCh w =>
      if decide (wAddr w ∈ cleaned s) then (s, true)
      else process (wcreq w) (Some w) sel (cleanup w s)
  | FromDie => (s, false)
  | FromAdminCh fn =>
      (mkLoop (fn (l_c s)) (l_u s) (respCh s) (cleaned s) (l_log s ++ [EvAdmin]),
       true)
  end.

(** [run], on the sequence of what its [select]s do.  It stops at the
    first iteration that returns. *)
Fixpoint run (sched : list (item * sendSel)) (s : loopState) : loopState :=
  match sched with
  | [] => s
  | (it, sel) :: rest =>
      let '(s', go) := runIter it sel s in
      if go then run rest s' else s'
  end.

(** How many times [log] records the cleanup of the deferred fetch at
    address [a], that is, how many times its wake-up was taken up. *)
Definition isCleanupOf (a : nat) (ev : event) : bool :=
  match ev with
  | EvCleanup w => bool_decide (w = a)
  | _ => false
  end.

Definition wakeupsTaken (a : nat) (log : list event) : nat :=
  length (filter (λ ev, isCleanupOf a ev = true) log).

End EventLoop.
Arguments Handlers : clear implicits.
Arguments event : clear implicits.
Arguments loopState : clear implicits.
Arguments item : clear implicits.

(** ** Slices over backing arrays

    The registry above keeps, under each key, the list of the elements of
    a Go slice.  This module models the slices themselves, headers over
    shared backing arrays, for the two updates [tryControl] and
    [callControl] make; [GoSliceFacts] shows that they come to what the
    lists above say. *)

Module GoSlice.
Section Slices.
Context {A : Type}.

(** The value a fresh array is filled with. *)
Variable zero : A.

(** How much room beyond the new element the runtime gives an array it
    has to allocate, from the capacity of the old one. *)
Variable grow : nat → nat.

(** A slice header whose window opens at the start of its backing array
    (all the slices of [c.control] do): the address of the array, the
    length, the capacity. *)
Record slice := mkSlice { ptr : nat; len : nat; cap : nat }.

(** The backing array of [s] in the heap [h]. *)
Definition arrayOf (h : gmap nat (list A)) (s : slice) : list A :=
  match h !! ptr s with
  | Some arr => arr
  | None => []
  end.

(** The elements of [s]. *)
Definition view (h : gmap nat (list A)) (s : slice) : list A :=
  take (len s) (arrayOf h s).

(** [s] is a slice of the heap [h]: its array is there and has the
    capacity of [s] (a nil slice counts as one with an empty array). *)
Definition wf (h : gmap nat (list A)) (s : slice) : Prop :=
  is_Some (h !! ptr s) ∧ length (arrayOf h s) = cap s ∧ (len s ≤ cap s)%nat.

(** [append(s, x)]: in place when there is room, else into a new array. *)
Definition append1 (h : gmap nat (list A)) (s : slice) (x : A)
  : gmap nat (list A) * slice :=
  if decide (len s < cap s)%nat then
    (<[ptr s := <[len s := x]> (arrayOf h s)]> h,
     mkSlice (ptr s) (S (len s)) (cap s))
  else
    let p := fresh (dom h) in
    let room := grow (cap s) in
    (<[p := view h s ++ x :: replicate room zero]> h,
     mkSlice p (S (len s)) (S (len s) + room)).

(** [append(s[:i], s[i+1:]...)] for [i < len s]: [s[:i]] has the capacity
    of [s], so the elements after [i] are moved down one place in the
    array of [s]; its last element stays where it was, out of the
    window. *)
Definition removeAt (h : gmap nat (list A)) (s : slice) (i : nat)
  : gmap nat (list A) * slice :=
  let arr := arrayOf h s in
  (<[ptr s := take i arr ++ take (len s - S i) (drop (S i) arr)
                         ++ drop (len s - 1) arr]> h,
   mkSlice (ptr s) (len s - 1) (cap s)).
End Slices.
End GoSlice.

(** ** Concrete clusters, closures and oracles

    The inputs the closed statements at the end of the file are about. *)

(** An operating system that binds every port asked for, and gives the
    ephemeral port [49152 + k] to the [k]-th call that asks for port 0. *)
Definition ex_os (port : Z) (k : nat) : option Z :=
  Some (if port =? 0 then 49152 + Z.of_nat k else port).

(** An operating system that refuses every listener after the third. *)
Definition ex_os3 (port : Z) (k : nat) : option Z :=
  if (k <? 3)%nat then ex_os port k else None.

Definition ex_rand (k : nat) : nat := k.

Definition ex_broker (i : nat) : broker :=
  mkBroker i (mkListener i (49152 + Z.of_nat i)) (Z.of_nat i) i.

(** The cluster [NewCluster] makes from the default [cfg] in a fresh world
    under [ex_os]. *)
Definition ex_new : Cluster unit :=
  mkCluster (mkCfg 3 []) (Some 2%nat) [ex_broker 0; ex_broker 1; ex_broker 2]
            ∅ false ∅ false 0 3 3 ∅.

(** The same brokers with one topic of two partitions. *)
Definition ex_tps : gmap (string * Z) partData :=
  {[ ("t"%string, 0) := mkPartData (LeaderAt 0) 0;
     ("t"%string, 1) := mkPartData (LeaderAt 1) 4 ]}.

Definition ex_topo : Cluster unit :=
  mkCluster (mkCfg 3 []) (Some 2%nat) [ex_broker 0; ex_broker 1; ex_broker 2]
            ∅ false ex_tps false 0 3 3 ∅.

(** The same brokers with one partition whose epoch is the greatest
    [int32]. *)
Definition ex_lastEpoch : Cluster unit :=
  mkCluster (mkCfg 3 []) (Some 2%nat) [ex_broker 0; ex_broker 1; ex_broker 2]
            ∅ false {[ ("t"%string, 0) := mkPartData (LeaderAt 0) maxInt32 ]}
            false 0 3 3 ∅.


(** A cluster one of whose brokers has the greatest [int32] as node ID. *)
Definition ex_top : Cluster unit :=
  mkCluster (mkCfg 2 []) (Some 1%nat)
            [ex_broker 0; mkBroker 1 (mkListener 1 49153) maxInt32 1]
            ∅ false ∅ false 0 2 2 ∅.

(** Control functions: one that handles and asks to be kept, one that
    handles once, one that handles with no response and no error, one that
    passes. *)
Definition ex_keep : controlFn unit :=
  CFn 1 (λ _ u, ((Some (mkResponse 7), None, true), [OpKeepControl], u)).
Definition ex_once : controlFn unit :=
  CFn 2 (λ _ u, ((Some (mkResponse 8), None, true), [], u)).
Definition ex_silent : controlFn unit :=
  CFn 3 (λ _ u, ((None, None, true), [], u)).
Definition ex_pass : controlFn unit :=
  CFn 4 (λ _ u, ((None, None, false), [], u)).

Definition ex_withControl (m : gmap Z (list (controlFn unit))) : Cluster unit :=
  set_control m ex_topo.

(** A metadata request on connection 5, with correlation number 11. *)
Definition ex_metadataReq : clientReq :=
  mkClientReq (mkClientConn 5 0) (mkRequest kmsgMetadata 0) 0 11.

(** A produce request on the same connection. *)
Definition ex_produceReq : clientReq :=
  mkClientReq (mkClientConn 5 0) (mkRequest kmsgProduce 0) 0 12.

(** A deferred fetch parked for a request on the same connection. *)
Definition ex_watch : watchFetch :=
  mkWatchFetch 9 (mkClientReq (mkClientConn 5 0) (mkRequest kmsgFetch 0) 0 13).

(** Handlers: produce answers nothing (no acknowledgment asked for), the
    others answer with the response 1. *)
Definition ex_hs : Handlers unit :=
  let ans := λ c : Cluster unit, (Some (mkResponse 1), None, c) in
  mkHandlers (λ _ _ c, (None, None, c)) (λ _ _ c, ans c) (λ _ _ c, ans c)
             (λ _ c, ans c) (λ _ c, ans c) (λ _ _ c, ans c) (λ _ _ c, ans c)
             (λ _ c, ans c) (λ _ _ c, ans c) (λ _ _ c, ans c).

Definition ex_loop (c : Cluster unit) : loopState unit :=
  mkLoop c tt ∅ ∅ [].

(** ** The administrative surface as a whole, and further vocabulary *)

Section Administration.
Context {U : Type}.
Variable randSrc : nat → nat.
Variable osListen : Z → nat → option Z.

(** The operations of the administrative surface that change the
    cluster, with their arguments. *)
Inductive adminOp :=
| DoMove (topic : string) (partition nodeID : Z)
| DoAdd (nodeID port : Z)
| DoRemove (nodeID : Z)
| DoShuffle.

(** What the closure the operation hands to [admin] does to the cluster. *)
Definition adminFn (op : adminOp) (c : Cluster U) : Cluster U :=
  match op with
  | DoMove topic partition nodeID => (MoveTopicPartition topic partition nodeID c).2
  | DoAdd nodeID port => (AddNode randSrc osListen nodeID port c).2
  | DoRemove nodeID => (RemoveNode randSrc nodeID c).2
  | DoShuffle => ShufflePartitionLeaders randSrc c
  end.

(** The operations of [ops] one after the other. *)
Definition adminSeq (ops : list adminOp) (c : Cluster U) : Cluster U :=
  foldl (λ c' op, adminFn op c') c ops.

(** Every broker's [bsIdx] is its index in [c.bs]. *)
Definition bsIdxOk (c : Cluster U) : Prop :=
  ∀ i b, bs c !! i = Some b → bsIdx b = i.

(** [cfg.nbrokers] is the length of [c.bs]. *)
Definition countOk (c : Cluster U) : Prop :=
  nbrokers (ccfg c) = Z.of_nat (length (bs c)).

(** Every partition's leader is the sentinel or points to a broker of
    [c.bs]. *)
Definition leadersLive (c : Cluster U) : Prop :=
  ∀ k pd, tps c !! k = Some pd →
          leader pd = NoLeader ∨ ∃ b, b ∈ bs c ∧ leader pd = LeaderAt (baddr b).

(** The port [NewCluster] asks for, for the broker of index [i]. *)
Definition portAt (cfg0 : cfg) (i : nat) : Z :=
  match ports cfg0 with
  | [] => 0
  | p0 :: _ => default p0 (ports cfg0 !! i)
  end.

(** The number of brokers [NewCluster] sets out to make. *)
Definition brokersWanted (cfg0 : cfg) : nat :=
  match ports cfg0 with
  | [] => Z.to_nat (nbrokers cfg0)
  | _ => length (ports cfg0)
  end.

(** The functions that the calls [ops] register under the key [k], in the
    order of the calls. *)
Definition regsAt (k : Z) (ops : list (ctlOp U)) : list (controlFn U) :=
  omap (λ op, match op with
              | OpKeepControl => None
              | OpControl fn => if decide (k = -1) then Some fn else None
              | OpControlKey k' fn => if decide (k' = k) then Some fn else None
              end) ops.

(** The same for all the calls of control functions recorded in [calls],
    on the request [rq]. *)
Definition regsOf (rq : request) (k : Z) (calls : list (Z * controlFn U * U))
  : list (controlFn U) :=
  concat ((λ e, regsAt k (entryOps rq e)) <$> calls).

(** The key under which the call that ended [tryControl] was made, when
    it ended with [handled]. *)
Definition consumedKey (t : tried U) : option Z :=
  if res_handled (t_res t) then (λ e, e.1.1) <$> last (t_calls t) else None.

(** The request an iteration of [run] works on, if what the first
    [select] received carries one. *)
Definition reqOf (it : item U) : option clientReq :=
  match it with
  | FromReqCh creq => Some creq
  | FromWatchFetchCh w => Some (wcreq w)
  | FromDie | FromAdminCh _ => None
  end.

(** The requests a schedule carries, in the order the loop receives them. *)
Definition reqsOf (sched : list (item U * sendSel)) : list clientReq :=
  omap (λ p, reqOf p.1) sched.

(** [r] is a reply to [creq] on the connection [conn]: the request came
    from that connection, the reply carries its correlation number, and it
    is not the empty reply. *)
Definition answers (conn : nat) (creq : clientReq) (r : clientResp) : Prop :=
  ccId (cc creq) = conn ∧ rcorr r = corr creq
  ∧ ¬ (kresp r = None ∧ rerr r = None).

(** The keys [run] has a handler for. *)
Definition supportedKeys : list Z :=
  [kmsgProduce; kmsgFetch; kmsgListOffsets; kmsgMetadata; kmsgApiVersions;
   kmsgCreateTopics; kmsgDeleteTopics; kmsgInitProducerID;
   kmsgOffsetForLeaderEpoch; kmsgCreatePartitions].
End Administration.
Arguments adminOp : clear implicits.


(** *** Further concrete inputs *)

(** A control function that passes and, while it runs, registers
    [ex_once] under the metadata key and [ex_silent] under the wildcard. *)
Definition ex_adder : controlFn unit :=
  CFn 5 (λ _ u, ((None, None, false),
                 [OpControlKey kmsgMetadata ex_once; OpControl ex_silent], u)).

(** A control function that passes, but returns a response. *)
Definition ex_leaky : controlFn unit :=
  CFn 6 (λ _ u, ((Some (mkResponse 9), None, false), [], u)).

(** A request with a key [run] has no handler for, on connection 5. *)
Definition ex_unknownReq : clientReq :=
  mkClientReq (mkClientConn 5 0) (mkRequest 99 0) 0 14.

(** A sequence of administrative operations: add a broker with the next
    node ID, remove node 0, move a partition to node 1, add node 1 again
    (refused), shuffle. *)
Definition ex_ops : list adminOp :=
  [DoAdd (-1) 0; DoRemove 0; DoMove "t" 0 1; DoAdd 1 0; DoShuffle].
(** * Facts about the control registry *)

Section RegistryFacts.
Context {U : Type}.
Implicit Types (c : Cluster U) (fn : controlFn U) (st : tried U).

Lemma controlAt_set_keep b c k : controlAt (set_keep b c) k = controlAt c k.
Proof. done. Qed.

Lemma controlAt_set_control m c k :
  controlAt (set_control m c) k = default [] (m !! k).
Proof. done. Qed.

Lemma controlAt_append c key fn k :
  controlAt (set_control (<[key := controlAt c key ++ [fn]]> (control c)) c) k
  = if decide (key = k) then controlAt c k ++ [fn] else controlAt c k.
Proof.
  rewrite controlAt_set_control. case_decide as Hk.
  - subst. by rewrite lookup_insert_eq.
  - by rewrite lookup_insert_ne.
Qed.

Lemma append_prefix c key fn k :
  controlAt c k `prefix_of`
  controlAt (set_control (<[key := controlAt c key ++ [fn]]> (control c)) c) k.
Proof.
  rewrite controlAt_append. case_decide; [by apply prefix_app_r|done].
Qed.

Lemma runOp_prefix c op k : controlAt c k `prefix_of` controlAt (runOp c op) k.
Proof. destruct op; simpl; [done | apply append_prefix | apply append_prefix]. Qed.

Lemma runOps_prefix ops c k : controlAt c k `prefix_of` controlAt (foldl runOp c ops) k.
Proof.
  revert c. induction ops as [|op ops IH]; intros c; simpl; [done|].
  etrans; [apply runOp_prefix | apply IH].
Qed.

Lemma callControl_res key req fn c u :
  (callControl key req fn c u).1.1 = (body fn req u).1.1
  ∧ (callControl key req fn c u).2 = (body fn req u).2.
Proof. unfold callControl. by destruct (body fn req u) as [[r ops] u']. Qed.

Lemma callControl_prefix key req fn c u k :
  controlAt c k `prefix_of` controlAt (callControl key req fn c u).1.2 k.
Proof.
  unfold callControl. destruct (body fn req u) as [[r ops] u']. simpl.
  pose proof (runOps_prefix ops (set_keep false c) k) as Hops.
  rewrite controlAt_set_keep in Hops.
  destruct (res_handled r); [|done].
  destruct (keepCurrentControl _); [|done].
  etrans; [exact Hops|]. 
  apply (append_prefix (set_keep false (foldl runOp (set_keep false c) ops))).
Qed.

Lemma tryFns_log key kreq all fns : ∀ i st,
  let t := tryFns key kreq all i fns st in
  ∃ new,
    t_calls t = t_calls st ++ new
    ∧ new.*1 = pair key <$> take (length new) fns
    ∧ (∀ j e, new !! j = Some e → (S j < length new)%nat →
              res_handled (entryRes kreq e) = false)
    ∧ match last new with
      | None => t = st ∧ fns = []
      | Some e =>
          t_res t = entryRes kreq e
          ∧ t_u t = (body e.1.2 kreq e.2).2
          ∧ (res_handled (t_res t) = false → length new = length fns)
          ∧ (res_handled (t_res t) = true →
             control (t_c t) !! key
             = Some (take (i + length new - 1) all ++ drop (i + length new) all))
      end.
Proof.
  induction fns as [|fn rest IH]; intros i st; simpl.
  { exists []. rewrite app_nil_r. repeat split; done. }
  destruct (callControl key kreq fn (t_c st) (t_u st)) as [[r c'] u'] eqn:Hcall.
  assert (r = (body fn kreq (t_u st)).1.1 ∧ u' = (body fn kreq (t_u st)).2)
    as [Hr Hu].
  { pose proof (callControl_res key kreq fn (t_c st) (t_u st)) as [H1 H2].
    by rewrite Hcall in H1, H2. }
  destruct (res_handled r) eqn:Hh.
  - exists [(key, fn, t_u st)]. simpl. repeat split; try done.
    + intros j e _ Hj. lia.
    + congruence.
    + intros _. rewrite lookup_insert_eq. do 3 f_equal; lia.
  - specialize (IH (S i) (mkTried r c' u' (t_calls st ++ [(key, fn, t_u st)]))).
    simpl in IH. destruct IH as (new & Hcalls & Hfst & Hun & Hlast).
    exists ((key, fn, t_u st) :: new). repeat split.
    + by rewrite Hcalls, <- app_assoc.
    + cbn [length take]. rewrite !fmap_cons. by rewrite Hfst.
    + intros [|j] e He Hj; simpl in *.
      * inversion He; subst e. unfold entryRes; simpl. by rewrite <- Hr.
      * apply (Hun j e He). lia.
    + destruct new as [|e0 new'] using rev_ind.
      * simpl in *. destruct Hlast as [-> ->]. simpl. repeat split; try done.
        intros Habs. congruence.
      * clear IHnew'. rewrite last_snoc in Hlast.
        change ((key, fn, t_u st) :: new' ++ [e0]) with (((key, fn, t_u st) :: new') ++ [e0]).
        rewrite last_snoc. destruct Hlast as (H1 & H1' & H2 & H3).
        repeat split; [done|done| |].
        -- intros Hf. specialize (H2 Hf). simpl. by rewrite H2.
        -- intros Ht. rewrite (H3 Ht). simpl. rewrite !length_app. simpl.
           do 3 f_equal; lia.
Qed.

Lemma tryFns_prefix key kreq all fns : ∀ i st k,
  k ≠ key ∨ res_handled (t_res (tryFns key kreq all i fns st)) = false →
  controlAt (t_c st) k `prefix_of` controlAt (t_c (tryFns key kreq all i fns st)) k.
Proof.
  induction fns as [|fn rest IH]; intros i st k Hk; simpl in *; [done|].
  pose proof (callControl_prefix key kreq fn (t_c st) (t_u st) k) as Hp.
  destruct (callControl key kreq fn (t_c st) (t_u st)) as [[r c'] u'] eqn:Hcall.
  simpl in Hp. destruct (res_handled r) eqn:Hh.
  - simpl in *. destruct Hk as [Hk|Hk]; [|congruence].
    rewrite controlAt_set_control, lookup_insert_ne by done. exact Hp.
  - etrans; [exact Hp|]. by apply (IH (S i) (mkTried r c' u' _) k).
Qed.

Lemma tryFns_log_all key kreq all fns i st new :
  t_calls (tryFns key kreq all i fns st) = t_calls st ++ new →
  res_handled (t_res (tryFns key kreq all i fns st)) = false →
  new.*1 = pair key <$> fns
  ∧ Forall (λ e, res_handled (entryRes kreq e) = false) new.
Proof.
  intros Hnew Ht.
  destruct (tryFns_log key kreq all fns i st) as (new' & Hc & Hfst & Hun & Hlast).
  rewrite Hc in Hnew. apply app_inv_head in Hnew. subst new'.
  destruct (last new) as [e|] eqn:Hl.
  - destruct Hlast as (Hres & _ & Hlen & _). specialize (Hlen Ht).
    split.
    + rewrite Hfst, Hlen. by rewrite firstn_all.
    + apply Forall_lookup. intros j e' He'.
      destruct (decide (S j < length new)%nat) as [Hj|Hj]; [by eapply Hun|].
      pose proof (lookup_lt_Some _ _ _ He') as Hlt.
      assert (last new = Some e') as Hl'.
      { rewrite last_lookup. rewrite <- He'. f_equal. lia. }
      rewrite Hl in Hl'. inversion Hl'; subst e'. by rewrite <- Hres.
  - apply last_None in Hl. subst new. destruct Hlast as [_ ->]. by split.
Qed.

Lemma callControl_quiet key req fn c u :
  (body fn req u).1.2 = [] → res_handled (body fn req u).1.1 = false →
  control (callControl key req fn c u).1.2 = control c.
Proof.
  unfold callControl. destruct (body fn req u) as [[r ops] u']. cbn [fst snd].
  intros -> ->. done.
Qed.

Lemma tryFns_quiet key kreq all fns : ∀ i st new,
  t_calls (tryFns key kreq all i fns st) = t_calls st ++ new →
  Forall (λ e, entryOps kreq e = []) new →
  res_handled (t_res (tryFns key kreq all i fns st)) = false →
  control (t_c (tryFns key kreq all i fns st)) = control (t_c st).
Proof.
  induction fns as [|fn rest IH]; intros i st new Hcalls Hq Hun; [done|].
  cbn [tryFns] in *.
  pose proof (callControl_res key kreq fn (t_c st) (t_u st)) as [Hr _].
  pose proof (callControl_quiet key kreq fn (t_c st) (t_u st)) as Hquiet.
  destruct (callControl key kreq fn (t_c st) (t_u st)) as [[r c'] u'].
  cbn [fst snd] in Hr, Hquiet.
  destruct (res_handled r) eqn:Hh; [cbn [t_res] in Hun; congruence|].
  set (st' := mkTried r c' u' (t_calls st ++ [(key, fn, t_u st)])) in *.
  destruct (tryFns_log key kreq all rest (S i) st') as (new' & Hc' & _).
  rewrite Hc' in Hcalls. cbn [t_calls st'] in Hcalls.
  rewrite <- app_assoc in Hcalls. apply app_inv_head in Hcalls. subst new.
  apply Forall_cons in Hq as [Hq0 Hq'].
  rewrite (IH (S i) st' new' Hc' Hq' Hun). cbn [t_c st'].
  apply Hquiet; [exact Hq0|]. by rewrite <- Hr.
Qed.

Lemma prefix_fmap_take {A B} (f : A → B) (n : nat) (l : list A) :
  f <$> take n l `prefix_of` f <$> l.
Proof. rewrite fmap_take. apply prefix_take. Qed.

Lemma controlAt_empty c k : size (control c) = 0%nat → controlAt c k = [].
Proof.
  intros Hs. apply map_size_empty_iff in Hs. unfold controlAt.
  by rewrite Hs, lookup_empty.
Qed.

(** C3.  Registering appends at the end of the list of the key, so the
    order of a list is the order of registration.  [tryControl] calls the
    functions of the list of the request's key in that order, then those
    of the wildcard list ([anyFns], the list under -1 when the first loop
    is over: the functions it had on entry, then any that the called
    functions added) in that order, and stops there: the calls are a
    prefix of the two lists put end to end; no call but the last reported
    [handled]; the results returned are those of the last call; when the
    result is not [handled], every function of both lists was called; and
    when the called functions made no call on the cluster, [anyFns] is the
    wildcard list as it was on entry. *)
Theorem tryControl_order kreq c u :
  let t := tryControl kreq c u in
  let keyFns := controlAt c (Key kreq) in
  (∀ k fn c0, controlAt (ControlKey k fn c0) k = controlAt c0 k ++ [fn]
              ∧ controlAt (Control fn c0) (-1) = controlAt c0 (-1) ++ [fn])
  ∧ ∃ anyFns,
      controlAt c (-1) `prefix_of` anyFns
      ∧ (t_calls t).*1 `prefix_of`
          (pair (Key kreq) <$> keyFns) ++ (pair (-1) <$> anyFns)
      ∧ (∀ j e, t_calls t !! j = Some e → (S j < length (t_calls t))%nat →
                res_handled (entryRes kreq e) = false)
      ∧ match last (t_calls t) with
        | None => t_res t = (None, None, false)
        | Some e => t_res t = entryRes kreq e
        end
      ∧ (res_handled (t_res t) = false →
         (t_calls t).*1 = (pair (Key kreq) <$> keyFns) ++ (pair (-1) <$> anyFns))
      ∧ (Forall (λ e, entryOps kreq e = []) (t_calls t) →
         anyFns = controlAt c (-1)).
Proof.
  intros t keyFns. split.
  { intros k fn c0. unfold ControlKey, Control.
    rewrite !controlAt_append. by rewrite !decide_True. }
  subst t. unfold tryControl. case_decide as Hsize.
  { exists []. simpl. rewrite (controlAt_empty c (-1) Hsize).
    subst keyFns. rewrite (controlAt_empty c (Key kreq) Hsize).
    repeat split; done. }
  set (st0 := mkTried (None, None, false) c u []).
  destruct (tryFns_log (Key kreq) kreq keyFns keyFns 0 st0)
    as (new1 & Hc1 & Hfst1 & Hun1 & Hlast1).
  fold keyFns. set (st1 := tryFns (Key kreq) kreq keyFns 0 keyFns st0) in *.
  simpl in Hc1. destruct (res_handled (t_res st1)) eqn:Hh1.
  - exists (controlAt c (-1)). split; [done|]. rewrite Hc1. repeat split.
    + rewrite Hfst1. apply prefix_app_r, prefix_fmap_take.
    + intros j e. apply Hun1.
    + destruct (last new1); [tauto|]. destruct Hlast1 as [-> _]. done.
    + congruence.
  - assert (new1.*1 = pair (Key kreq) <$> keyFns
            ∧ Forall (λ e, res_handled (entryRes kreq e) = false) new1)
      as [Hall1 Hun1'].
    { by apply (tryFns_log_all (Key kreq) kreq keyFns keyFns 0 st0). }
    set (anyFns := controlAt (t_c st1) (-1)).
    destruct (tryFns_log (-1) kreq anyFns anyFns 0 st1)
      as (new2 & Hc2 & Hfst2 & Hun2 & Hlast2).
    set (st2 := tryFns (-1) kreq anyFns 0 anyFns st1) in *.
    exists anyFns. rewrite Hc2, Hc1. split.
    { apply (tryFns_prefix (Key kreq) kreq keyFns keyFns 0 st0 (-1)). by right. }
    repeat split.
    + rewrite fmap_app, Hall1, Hfst2. apply prefix_app, prefix_fmap_take.
    + intros j e He Hj. rewrite length_app in Hj.
      destruct (decide (j < length new1)%nat) as [Hlt|Hge].
      * rewrite lookup_app_l in He by done.
        by apply (proj1 (Forall_lookup _ _) Hun1' j e).
      * rewrite lookup_app_r in He by lia. apply (Hun2 _ _ He). lia.
    + destruct (last new2) as [e2|] eqn:Hl2.
      * apply last_Some in Hl2 as [l' ->]. rewrite app_assoc, last_snoc.
        by destruct Hlast2 as [? _].
      * apply last_None in Hl2. subst new2. rewrite app_nil_r.
        destruct Hlast2 as [-> _].
        destruct (last new1); [by destruct Hlast1 as [? _]|].
        by destruct Hlast1 as [-> _].
    + intros Hh2. rewrite fmap_app, Hall1. f_equal.
      by destruct (tryFns_log_all (-1) kreq anyFns anyFns 0 st1 new2 Hc2 Hh2).
    + intros Hq. apply Forall_app in Hq as [Hq1 _].
      pose proof (tryFns_quiet (Key kreq) kreq keyFns keyFns 0 st0 new1 Hc1 Hq1 Hh1)
        as Hsame.
      subst anyFns. unfold controlAt. fold st1 in Hsame. by rewrite Hsame.
Qed.

Lemma tryControl_key_handled kreq c u pre fn u1 :
  let key := Key kreq in
  let t := tryControl kreq c u in
  let keyFns := controlAt c key in
  key ≠ -1 →
  t_calls t = pre ++ [(key, fn, u1)] →
  res_handled (entryRes kreq (key, fn, u1)) = true →
  t_res t = (body fn kreq u1).1.1
  ∧ t_u t = (body fn kreq u1).2
  ∧ keyFns !! length pre = Some fn
  ∧ controlAt (t_c t) key = take (length pre) keyFns ++ drop (S (length pre)) keyFns
  ∧ pre.*1 = pair key <$> take (length pre) keyFns
  ∧ Forall (λ e, res_handled (entryRes kreq e) = false) pre
  ∧ controlAt c (-1) `prefix_of` controlAt (t_c t) (-1).
Proof.
  intros key t keyFns Hkey Hcalls Hh. subst t. unfold tryControl in *.
  case_decide as Hsize.
  { simpl in Hcalls. by destruct pre. }
  set (st0 := mkTried (None, None, false) c u []) in *.
  destruct (tryFns_log key kreq keyFns keyFns 0 st0)
    as (new1 & Hc1 & Hfst1 & Hun1 & Hlast1).
  fold key keyFns in Hcalls |- *.
  pose proof (tryFns_prefix key kreq keyFns keyFns 0 st0 (-1)) as Hpre.
  set (st1 := tryFns key kreq keyFns 0 keyFns st0) in *.
  simpl in Hc1. destruct (res_handled (t_res st1)) eqn:Hh1.
  - rewrite Hc1 in Hcalls. subst new1. rewrite last_snoc in Hlast1.
    destruct Hlast1 as (Hres & Hu & _ & Hctl). specialize (Hctl eq_refl).
    rewrite length_app in Hctl, Hfst1. simpl in Hctl, Hfst1.
    replace (length pre + 1)%nat with (S (length pre)) in Hfst1 by lia.
    assert (keyFns !! length pre = Some fn) as Hat.
    { assert ((pre ++ [(key, fn, u1)]).*1 !! length pre = Some (key, fn)) as Hl.
      { rewrite list_lookup_fmap, lookup_app_r by lia.
        by rewrite Nat.sub_diag. }
      rewrite Hfst1, list_lookup_fmap, lookup_take_lt in Hl by lia.
      destruct (keyFns !! length pre); simpl in Hl; congruence. }
    repeat split; try done.
    + unfold controlAt. rewrite Hctl. simpl. do 2 f_equal; lia.
    + apply (f_equal (take (length pre))) in Hfst1.
      rewrite fmap_app, take_app_length' in Hfst1 by by rewrite length_fmap.
      rewrite Hfst1, <- fmap_take, take_take. do 2 f_equal. lia.
    + apply Forall_lookup. intros j e He. apply (Hun1 j e).
      * by apply lookup_app_l_Some.
      * apply lookup_lt_Some in He. rewrite length_app. simpl. lia.
    + apply Hpre. by left.
  - exfalso.
    set (anyFns := controlAt (t_c st1) (-1)) in *.
    destruct (tryFns_log (-1) kreq anyFns anyFns 0 st1)
      as (new2 & Hc2 & Hfst2 & _ & Hlast2).
    set (st2 := tryFns (-1) kreq anyFns 0 anyFns st1) in *.
    rewrite Hc2, Hc1 in Hcalls.
    destruct new2 as [|e2 new2' _] using rev_ind.
    + rewrite app_nil_r in Hcalls. subst new1. rewrite last_snoc in Hlast1.
      destruct Hlast1 as (Hres & _). rewrite Hres in Hh1. congruence.
    + rewrite app_assoc in Hcalls. apply app_inj_tail in Hcalls as [_ ->].
      rewrite fmap_app in Hfst2. simpl in Hfst2.
      assert ((key, fn) ∈ pair (-1) <$> take (length (new2' ++ [(key, fn, u1)])) anyFns)
        as Hin.
      { rewrite <- Hfst2. apply elem_of_app. right. by apply list_elem_of_singleton. }
      apply list_elem_of_fmap in Hin as (g & Hg & _). congruence.
Qed.

Lemma tryControl_any_handled kreq c u pre fn u1 :
  let key := Key kreq in
  let t := tryControl kreq c u in
  let keyFns := controlAt c key in
  key ≠ -1 →
  t_calls t = pre ++ [(-1, fn, u1)] →
  res_handled (entryRes kreq (-1, fn, u1)) = true →
  ∃ anyFns j,
    controlAt c (-1) `prefix_of` anyFns
    ∧ length pre = (length keyFns + j)%nat
    ∧ anyFns !! j = Some fn
    ∧ t_res t = (body fn kreq u1).1.1
    ∧ t_u t = (body fn kreq u1).2
    ∧ controlAt (t_c t) (-1) = take j anyFns ++ drop (S j) anyFns
    ∧ controlAt c key `prefix_of` controlAt (t_c t) key
    ∧ Forall (λ e, res_handled (entryRes kreq e) = false) pre.
Proof.
  intros key t keyFns Hkey Hcalls Hh. subst t. unfold tryControl in *.
  case_decide as Hsize.
  { simpl in Hcalls. by destruct pre. }
  set (st0 := mkTried (None, None, false) c u []) in *.
  destruct (tryFns_log key kreq keyFns keyFns 0 st0)
    as (new1 & Hc1 & Hfst1 & Hun1 & Hlast1).
  fold key keyFns in Hcalls |- *.
  pose proof (tryFns_prefix key kreq keyFns keyFns 0 st0) as Hpre1.
  set (st1 := tryFns key kreq keyFns 0 keyFns st0) in *.
  simpl in Hc1.
  assert (∀ l' e', new1 = l' ++ [e'] → e'.1.1 = key) as Hkeys1.
  { intros l' e' ->. rewrite fmap_app in Hfst1. simpl in Hfst1.
    assert (e'.1 ∈ pair key <$> take (length (l' ++ [e'])) keyFns) as Hin.
    { rewrite <- Hfst1. apply elem_of_app. right. by apply list_elem_of_singleton. }
    apply list_elem_of_fmap in Hin as (g & -> & _). done. }
  destruct (res_handled (t_res st1)) eqn:Hh1.
  { exfalso. rewrite Hc1 in Hcalls.
    by specialize (Hkeys1 _ _ Hcalls). }
  destruct (tryFns_log_all key kreq keyFns keyFns 0 st0 new1 Hc1 Hh1)
    as [Hall1 Hun1'].
  set (anyFns := controlAt (t_c st1) (-1)) in *.
  destruct (tryFns_log (-1) kreq anyFns anyFns 0 st1)
    as (new2 & Hc2 & Hfst2 & Hun2 & Hlast2).
  pose proof (tryFns_prefix (-1) kreq anyFns anyFns 0 st1 key) as Hpre2.
  set (st2 := tryFns (-1) kreq anyFns 0 anyFns st1) in *.
  rewrite Hc2, Hc1 in Hcalls.
  destruct new2 as [|e2 new2' _] using rev_ind.
  { exfalso. rewrite app_nil_r in Hcalls. by specialize (Hkeys1 _ _ Hcalls). }
  rewrite app_assoc in Hcalls. apply app_inj_tail in Hcalls as [<- ->].
  rewrite last_snoc in Hlast2. destruct Hlast2 as (Hres & Hu & _ & Hctl).
  rewrite Hres in Hctl. specialize (Hctl Hh).
  rewrite length_app in Hctl, Hfst2. simpl in Hctl, Hfst2.
  replace (length new2' + 1)%nat with (S (length new2')) in Hfst2 by lia.
  exists anyFns, (length new2'). repeat split; try done.
  - apply Hpre1. by right.
  - rewrite length_app. f_equal.
    by rewrite <- (length_fmap fst), Hall1, length_fmap.
  - assert ((new2' ++ [(-1, fn, u1)]).*1 !! length new2' = Some (-1, fn)) as Hl.
    { rewrite list_lookup_fmap, lookup_app_r by lia. by rewrite Nat.sub_diag. }
    rewrite Hfst2, list_lookup_fmap, lookup_take_lt in Hl by lia.
    destruct (anyFns !! length new2'); simpl in Hl; congruence.
  - unfold controlAt. rewrite Hctl. simpl. do 2 f_equal; lia.
  - etrans; [apply Hpre1; by right|]. apply Hpre2. by left.
  - apply Forall_app. split; [done|].
    apply Forall_lookup. intros j e He. apply (Hun2 j e).
    + by apply lookup_app_l_Some.
    + apply lookup_lt_Some in He. rewrite length_app. simpl. lia.
Qed.

Lemma tryControl_unhandled_prefix kreq c u k :
  res_handled (t_res (tryControl kreq c u)) = false →
  controlAt c k `prefix_of` controlAt (t_c (tryControl kreq c u)) k.
Proof.
  unfold tryControl. case_decide as Hsize; [done|].
  set (keyFns := controlAt c (Key kreq)).
  set (st0 := mkTried (None, None, false) c u []).
  pose proof (tryFns_prefix (Key kreq) kreq keyFns keyFns 0 st0 k) as Hp1.
  set (st1 := tryFns (Key kreq) kreq keyFns 0 keyFns st0) in *.
  destruct (res_handled (t_res st1)) eqn:Hh1; [congruence|].
  intros Hh2. etrans; [apply Hp1; by right|].
  apply (tryFns_prefix (-1) kreq _ _ 0 st1 k). by right.
Qed.

End RegistryFacts.

(** * Facts about the topology *)

Section TopologyFacts.
Context {U : Type}.
Variable randSrc : nat → nat.
Variable osListen : Z → nat → option Z.
Implicit Types (c : Cluster U) (b : broker) (pd : partData).

Lemma shuffleOne_spec brokers pd pos :
  epoch (shuffleOne randSrc brokers pd pos).1 = wrap32 (epoch pd + 1)
  ∧ electedFrom brokers (leader (shuffleOne randSrc brokers pd pos).1).
Proof.
  unfold shuffleOne. destruct brokers as [|b0 rest]; [done|].
  cbn [fst epoch leader]. split; [done|].
  set (i := (randSrc pos `mod` length (b0 :: rest))%nat).
  assert (i < length (b0 :: rest))%nat as Hi.
  { subst i. apply Nat.mod_upper_bound. simpl. lia. }
  apply lookup_lt_is_Some in Hi as [b Hb]. exists b.
  rewrite Hb. split; [|done]. by eapply list_elem_of_lookup_2.
Qed.

Lemma shuffleEach_spec brokers l : ∀ pos,
  Forall2 (λ x y, x.1 = y.1 ∧ epoch y.2 = wrap32 (epoch x.2 + 1)
                  ∧ electedFrom brokers (leader y.2))
          l (shuffleEach randSrc brokers l pos).1.
Proof.
  induction l as [|[k p] l IH]; intros pos; simpl; [constructor|].
  pose proof (shuffleOne_spec brokers p pos) as [He Hl].
  destruct (shuffleOne randSrc brokers p pos) as [p' pos'].
  specialize (IH pos').
  destruct (shuffleEach randSrc brokers l pos') as [r pos'']. simpl in *.
  constructor; [done|exact IH].
Qed.

Lemma shufflePartitionsLocked_fields c :
  let c' := shufflePartitionsLocked randSrc c in
  bs c' = bs c ∧ ccfg c' = ccfg c ∧ control c' = control c
  ∧ lnClosed c' = lnClosed c ∧ lnNext c' = lnNext c ∧ nextAddr c' = nextAddr c
  ∧ controller c' = controller c ∧ dead c' = dead c
  ∧ keepCurrentControl c' = keepCurrentControl c.
Proof.
  unfold shufflePartitionsLocked.
  destruct (shuffleEach randSrc (bs c) (map_to_list (tps c)) (rngPos c)) as [l pos].
  done.
Qed.

Lemma shufflePartitionsLocked_tps c k :
  match tps c !! k with
  | Some pd =>
      ∃ pd', tps (shufflePartitionsLocked randSrc c) !! k = Some pd'
             ∧ epoch pd' = wrap32 (epoch pd + 1)
             ∧ electedFrom (bs c) (leader pd')
  | None => tps (shufflePartitionsLocked randSrc c) !! k = None
  end.
Proof.
  unfold shufflePartitionsLocked.
  pose proof (shuffleEach_spec (bs c) (map_to_list (tps c)) (rngPos c)) as HF.
  destruct (shuffleEach randSrc (bs c) (map_to_list (tps c)) (rngPos c)) as [l pos].
  simpl in *.
  assert (l.*1 = (map_to_list (tps c)).*1) as Hkeys.
  { clear -HF. induction HF as [|x y l1 l2 [Hxy _] _ IH]; [done|].
    rewrite !fmap_cons. by rewrite IH, Hxy. }
  assert (NoDup l.*1) as Hnd.
  { rewrite Hkeys. apply NoDup_fst_map_to_list. }
  destruct (tps c !! k) as [pd|] eqn:Hk.
  - apply elem_of_map_to_list in Hk.
    apply list_elem_of_lookup in Hk as [j Hj].
    destruct (Forall2_lookup_l _ _ _ _ _ HF Hj) as ([k' pd'] & Hj' & Hkk & He & Hl).
    simpl in *. subst k'. exists pd'. split; [|done].
    apply elem_of_list_to_map; [done|]. by eapply list_elem_of_lookup_2.
  - apply not_elem_of_list_to_map. rewrite Hkeys.
    intros Hin. apply list_elem_of_fmap in Hin as ([k' pd] & -> & Hin).
    apply elem_of_map_to_list in Hin. simpl in Hk. congruence.
Qed.

(** C2, as amended.  After [ShufflePartitionLeaders], every partition of
    the topology is still there, its epoch is the one it had incremented
    as an [int32], which is the one it had plus 1 when that was below the
    greatest [int32] (and the least [int32] when it was the greatest), and
    its leader is one of the brokers of the broker list (which the shuffle
    does not change), or the sentinel when the list is empty. *)
Theorem ShufflePartitionLeaders_spec c topic partition pd :
  tps c !! (topic, partition) = Some pd →
  let c' := ShufflePartitionLeaders randSrc c in
  ∃ pd', tps c' !! (topic, partition) = Some pd'
         ∧ epoch pd' = wrap32 (epoch pd + 1)
         ∧ (minInt32 ≤ epoch pd < maxInt32 → epoch pd' = epoch pd + 1)
         ∧ (epoch pd = maxInt32 → epoch pd' = minInt32)
         ∧ bs c' = bs c
         ∧ electedFrom (bs c') (leader pd').
Proof.
  intros Hk c'. subst c'. unfold ShufflePartitionLeaders.
  pose proof (shufflePartitionsLocked_tps c (topic, partition)) as H.
  rewrite Hk in H. destruct H as (pd' & H1 & H2 & H3).
  destruct (shufflePartitionsLocked_fields c) as [Hbs _].
  exists pd'. rewrite Hbs. split; [done|]. split; [done|].
  split; [|split; [|by split]].
  - intros Hrange. rewrite H2. unfold wrap32, minInt32, maxInt32 in *.
    rewrite Z.mod_small by lia. lia.
  - intros Hmax. rewrite H2, Hmax. reflexivity.
Qed.

Lemma find_node_Some nodeID (l : list broker) :
  (∃ b, b ∈ l ∧ node b = nodeID) →
  ∃ br, find (λ b, node b =? nodeID) l = Some br ∧ br ∈ l ∧ node br = nodeID.
Proof.
  intros (b & Hb & Hn).
  destruct (find (λ b, node b =? nodeID) l) as [br|] eqn:Hf.
  - apply find_some in Hf as [Hin Heq]. exists br. split; [done|].
    split; [by apply list_elem_of_In | lia].
  - exfalso. pose proof (find_none _ _ Hf b) as Hb'. simpl in Hb'.
    rewrite <- list_elem_of_In in Hb'. specialize (Hb' Hb). lia.
Qed.

Lemma find_node_None nodeID (l : list broker) :
  (∀ b, b ∈ l → node b ≠ nodeID) → find (λ b, node b =? nodeID) l = None.
Proof.
  intros Hno. destruct (find (λ b, node b =? nodeID) l) as [br|] eqn:Hf; [|done].
  apply find_some in Hf as [Hin Heq]. exfalso.
  apply (Hno br); [by apply list_elem_of_In | lia].
Qed.

(** C5.  [MoveTopicPartition]: when a broker has the node ID and the
    partition exists, there is no error, the partition's leader is a
    broker of the list with that node ID, its epoch is what it was, every
    other partition is as it was, and so is the broker list.  When no
    broker has the node ID or the partition does not exist, there is an
    error and the cluster is as it was. *)
Theorem MoveTopicPartition_spec topic partition nodeID c :
  let r := MoveTopicPartition topic partition nodeID c in
  (∀ pd, (∃ b, b ∈ bs c ∧ node b = nodeID) →
         tps c !! (topic, partition) = Some pd →
         ∃ br, br ∈ bs c ∧ node br = nodeID
               ∧ r.1 = None
               ∧ tps r.2 !! (topic, partition)
                 = Some (mkPartData (LeaderAt (baddr br)) (epoch pd))
               ∧ (∀ k, k ≠ (topic, partition) → tps r.2 !! k = tps c !! k)
               ∧ bs r.2 = bs c)
  ∧ ((∀ b, b ∈ bs c → node b ≠ nodeID) ∨ tps c !! (topic, partition) = None →
     is_Some r.1 ∧ r.2 = c).
Proof.
  intros r. subst r. unfold MoveTopicPartition, getp. split.
  - intros pd Hnode Hpart.
    destruct (find_node_Some nodeID (bs c) Hnode) as (br & -> & Hin & Hn).
    rewrite Hpart. simpl. exists br. repeat split; try done.
    + by rewrite lookup_insert_eq.
    + intros k Hk. by rewrite lookup_insert_ne.
  - intros [Hno|Hno].
    + rewrite (find_node_None nodeID (bs c) Hno). by split; [eexists|].
    + destruct (find _ (bs c)); [|by split; [eexists|]].
      rewrite Hno. by split; [eexists|].
Qed.

Lemma shufflePartitionsLocked_reshuffled c :
  reshuffled c (shufflePartitionsLocked randSrc c).
Proof.
  intros k. pose proof (shufflePartitionsLocked_tps c k) as H.
  destruct (shufflePartitionsLocked_fields c) as [Hbs _]. by rewrite Hbs.
Qed.


Lemma isMaxNode_ids l m :
  isMaxNode l m ↔ m ∈ node <$> l ∧ ∀ z, z ∈ node <$> l → z ≤ m.
Proof.
  unfold isMaxNode. split.
  - intros [(b & Hb & <-) Hall]. split.
    + apply list_elem_of_fmap. by exists b.
    + intros z Hz. apply list_elem_of_fmap in Hz as (b' & -> & Hb'). by apply Hall.
  - intros [Hin Hall]. split.
    + apply list_elem_of_fmap in Hin as (b & -> & Hb). by exists b.
    + intros b Hb. apply Hall. apply list_elem_of_fmap. by exists b.
Qed.

Lemma maxNode_fold rest : ∀ acc,
  let m := foldl (λ m b, if node b >? m then node b else m) acc rest in
  acc ≤ m ∧ (∀ b, b ∈ rest → node b ≤ m) ∧ (m = acc ∨ ∃ b, b ∈ rest ∧ node b = m).
Proof.
  induction rest as [|b rest IH]; intros acc; simpl.
  { split; [lia|]. split; [|by left]. intros b Hb. by apply elem_of_nil in Hb. }
  specialize (IH (if node b >? acc then node b else acc)).
  simpl in IH. destruct IH as (Hle & Hall & Hex).
  set (m := foldl _ _ rest) in *.
  assert (acc ≤ m ∧ node b ≤ m) as [H1 H2].
  { destruct (Z.gtb_spec (node b) acc); lia. }
  split; [done|]. split.
  - intros b' Hb'. apply elem_of_cons in Hb' as [->|Hb']; [done|by apply Hall].
  - destruct Hex as [Hex|(b' & Hb' & Hn)].
    + destruct (Z.gtb_spec (node b) acc).
      * right. exists b. split; [by left|done].
      * by left.
    + right. exists b'. split; [by right|done].
Qed.

Lemma maxNode_isMax b0 rest : isMaxNode (b0 :: rest) (maxNode b0 rest).
Proof.
  unfold maxNode. destruct (maxNode_fold rest (node b0)) as (Hle & Hall & Hex).
  split.
  - destruct Hex as [Hex|(b & Hb & Hn)].
    + exists b0. split; [by left|done].
    + exists b. split; [by right|done].
  - intros b Hb. apply elem_of_cons in Hb as [->|Hb]; [done|by apply Hall].
Qed.

Lemma isMaxNode_unique l m1 m2 : isMaxNode l m1 → isMaxNode l m2 → m1 = m2.
Proof.
  intros [(b1 & Hb1 & <-) H1] [(b2 & Hb2 & <-) H2].
  specialize (H1 _ Hb2). specialize (H2 _ Hb1). lia.
Qed.

Lemma wrap32_id z : int32 z → wrap32 z = z.
Proof.
  unfold int32, wrap32, minInt32, maxInt32. intros Hz.
  rewrite Z.mod_small; lia.
Qed.

Lemma wrap32_int32 z : int32 (wrap32 z).
Proof.
  unfold int32, wrap32, minInt32, maxInt32.
  pose proof (Z.mod_pos_bound (z + 2 ^ 31) (2 ^ 32)). lia.
Qed.

Lemma assignNodeID_auto nodeID l m :
  nodeID < 0 → isMaxNode l m → assignNodeID nodeID l = Some (wrap32 (m + 1)).
Proof.
  intros Hneg Hm. unfold assignNodeID.
  destruct (Z.geb_spec nodeID 0); [lia|].
  destruct l as [|b0 rest].
  - destruct Hm as [(b & Hb & _) _]. by apply elem_of_nil in Hb.
  - by rewrite (isMaxNode_unique _ _ _ (maxNode_isMax b0 rest) Hm).
Qed.

Lemma assignNodeID_exists nodeID l :
  0 ≤ nodeID → (∃ b, b ∈ l ∧ node b = nodeID) → assignNodeID nodeID l = None.
Proof.
  intros Hpos (b & Hb & Hn). unfold assignNodeID.
  destruct (Z.geb_spec nodeID 0); [|lia].
  assert (existsb (λ b, node b =? nodeID) l = true) as ->; [|done].
  apply existsb_exists. exists b. split; [by apply list_elem_of_In | lia].
Qed.

(** What [AddNode] leaves, on success. *)
Lemma AddNode_ok nodeID port c nodeID' p :
  assignNodeID nodeID (bs c) = Some nodeID' →
  osListen (if port <? 0 then 0 else port) (lnNext c) = Some p →
  let r := AddNode randSrc osListen nodeID port c in
  r.1 = (nodeID', p, None)
  ∧ bs r.2 = bs c ++ [mkBroker (nextAddr c) (mkListener (lnNext c) p) nodeID'
                               (length (bs c))]
  ∧ nbrokers (ccfg r.2) = wrap64 (nbrokers (ccfg c) + 1)
  ∧ lnClosed r.2 = lnClosed c.
Proof.
  intros Ha Hl r. subst r. unfold AddNode, newListener. rewrite Ha.
  cbn [fst snd]. rewrite Hl. cbn [fmap option_fmap option_map fst snd].
  set (c4 := set_nbrokers _ _).
  destruct (shufflePartitionsLocked_fields c4) as (Hb & Hcfg & _ & Hcl & _).
  rewrite Hb, Hcfg, Hcl. done.
Qed.

Lemma NewCluster_default world c0 :
  NewCluster osListen defaultCfg world = NewOk c0 →
  node <$> bs c0 = [0; 1; 2] ∧ nbrokers (ccfg c0) = 3 ∧ tps c0 = ∅.
Proof.
  destruct world as [[pos addr] lnk]. unfold NewCluster, defaultCfg.
  cbn [ports nbrokers]. change (Z.to_nat 3) with 3%nat.
  unfold newBrokers, newListener. cbn [ccfg ports lnNext set_lnNext].
  destruct (osListen 0 lnk) as [p0|]; [|done]. cbn [fmap option_fmap option_map].
  cbn [ccfg ports lnNext set_lnNext set_bs set_nextAddr bs nextAddr].
  destruct (osListen 0 (S lnk)) as [p1|]; [|done]. cbn [fmap option_fmap option_map].
  cbn [ccfg ports lnNext set_lnNext set_bs set_nextAddr bs nextAddr].
  destruct (osListen 0 (S (S lnk))) as [p2|]; [|done].
  cbn [fmap option_fmap option_map].
  cbn [ccfg ports lnNext set_lnNext set_bs set_nextAddr bs nextAddr app last].
  intros [= <-]. done.
Qed.

Lemma AddNode_auto_id nodeID port c m :
  nodeID < 0 → isMaxNode (bs c) m →
  (AddNode randSrc osListen nodeID port c).1.1.1 = wrap32 (m + 1).
Proof.
  intros Hneg Hm. unfold AddNode.
  rewrite (assignNodeID_auto nodeID (bs c) m Hneg Hm).
  by destruct (newListener _ _ _) as [[l|] c1].
Qed.

(** The node ID [AddNode] returns is the one of the broker it appends:
    with no error, the broker list is the old one followed by one broker
    whose node ID is the ID returned; with an error it is the old one. *)
Lemma AddNode_appends nodeID port c :
  let r := AddNode randSrc osListen nodeID port c in
  (r.1.2 = None →
   ∃ b, bs r.2 = bs c ++ [b] ∧ node b = r.1.1.1 ∧ bsIdx b = length (bs c))
  ∧ (is_Some r.1.2 → bs r.2 = bs c).
Proof.
  intros r. subst r. unfold AddNode.
  destruct (assignNodeID nodeID (bs c)) as [id|] eqn:Ha.
  2:{ cbn [fst snd]. split; [done|done]. }
  unfold newListener. cbn [fst snd].
  destruct (osListen (if port <? 0 then 0 else port) (lnNext c)) as [p|] eqn:Hl;
    cbn [fmap option_fmap option_map fst snd].
  - set (c4 := set_nbrokers _ _).
    destruct (shufflePartitionsLocked_fields c4) as (Hb & _).
    rewrite Hb. split; [|by intros [e He]].
    intros _. eexists. split; [reflexivity|]. by cbn.
  - split; [done|]. by intros _.
Qed.

(** C7, as amended.  [AddNode]: with [nodeID >= 0] and a broker that has
    it, the error is "already exists" and the cluster is as it was.  With
    [nodeID < 0], the ID assigned is 0 when there is no broker, and
    otherwise the greatest node ID plus 1 in 32-bit arithmetic: exactly
    one more when the greatest is below the greatest [int32].  The ID
    assigned is the one returned and the node ID of the broker appended:
    with no error the broker list is the old one followed by one broker
    with that node ID, with an error no broker is added.  On a cluster
    fresh from [NewCluster] with the default configuration,
    [AddNode(-1, 0)] whose listener the operating system binds to a port
    [p > 0] returns node ID 3 and that port, with no error, and leaves
    four brokers, with node IDs 0, 1, 2, 3; when the operating system
    refuses the listener it returns node ID 3 and an error, and leaves
    the three brokers 0, 1, 2. *)
Theorem AddNode_spec nodeID port c :
  let r := AddNode randSrc osListen nodeID port c in
  (0 ≤ nodeID → (∃ b, b ∈ bs c ∧ node b = nodeID) →
   r = ((nodeID, port, Some (ErrNodeExists nodeID)), c))
  ∧ (nodeID < 0 → bs c = [] → r.1.1.1 = 0)
  ∧ (∀ m, nodeID < 0 → isMaxNode (bs c) m →
          r.1.1.1 = wrap32 (m + 1)
          ∧ (m < maxInt32 → minInt32 ≤ m → r.1.1.1 = m + 1))
  ∧ (r.1.2 = None →
     ∃ b, bs r.2 = bs c ++ [b] ∧ node b = r.1.1.1 ∧ bsIdx b = length (bs c))
  ∧ (is_Some r.1.2 → bs r.2 = bs c)
  ∧ (∀ world c0 p,
       NewCluster osListen defaultCfg world = NewOk c0 →
       osListen 0 (lnNext c0) = Some p → 0 < p →
       let r0 := AddNode randSrc osListen (-1) 0 c0 in
       r0.1 = (3, p, None) ∧ 0 < r0.1.1.2
       ∧ length (bs r0.2) = 4%nat ∧ nbrokers (ccfg r0.2) = 4
       ∧ nodeIDs r0.2 = [0; 1; 2; 3])
  ∧ (∀ world c0,
       NewCluster osListen defaultCfg world = NewOk c0 →
       osListen 0 (lnNext c0) = None →
       let r0 := AddNode randSrc osListen (-1) 0 c0 in
       r0.1 = (3, 0, Some (ErrListen 0))
       ∧ length (bs r0.2) = 3%nat ∧ nbrokers (ccfg r0.2) = 3
       ∧ nodeIDs r0.2 = [0; 1; 2]).
Proof.
  intros r. subst r.
  split; [|split; [|split; [|split; [|split; [|split]]]]].
  - intros Hpos Hex. unfold AddNode.
    by rewrite (assignNodeID_exists nodeID (bs c) Hpos Hex).
  - intros Hneg Hnil. unfold AddNode, assignNodeID. rewrite Hnil.
    destruct (Z.geb_spec nodeID 0); [lia|].
    by destruct (newListener _ _ _) as [[l|] c1].
  - intros m Hneg Hm.
    pose proof (AddNode_auto_id nodeID port c m Hneg Hm) as Hid.
    split; [done|]. intros Hlt Hge. rewrite Hid. apply wrap32_id.
    unfold int32. lia.
  - apply AddNode_appends.
  - apply AddNode_appends.
  - intros world c0 p Hnew Hl Hp r0.
    destruct (NewCluster_default world c0 Hnew) as (Hnodes & Hn & _).
    assert (isMaxNode (bs c0) 2) as Hmax.
    { apply isMaxNode_ids. rewrite Hnodes. split.
      - do 2 right. left.
      - intros z Hz. repeat (apply elem_of_cons in Hz as [->|Hz]; [lia|]).
        by apply elem_of_nil in Hz. }
    destruct (AddNode_ok (-1) 0 c0 3 p) as (H1 & H2 & H3 & _).
    { by rewrite (assignNodeID_auto (-1) (bs c0) 2). }
    { done. }
    subst r0. unfold nodeIDs. rewrite H1, H2, H3, Hn, length_app, fmap_app, Hnodes.
    cbn [fst snd length].
    assert (length (bs c0) = 3%nat) as ->.
    { by rewrite <- (length_fmap node), Hnodes. }
    done.
  - intros world c0 Hnew Hl r0.
    destruct (NewCluster_default world c0 Hnew) as (Hnodes & Hn & _).
    assert (isMaxNode (bs c0) 2) as Hmax.
    { apply isMaxNode_ids. rewrite Hnodes. split.
      - do 2 right. left.
      - intros z Hz. repeat (apply elem_of_cons in Hz as [->|Hz]; [lia|]).
        by apply elem_of_nil in Hz. }
    subst r0. unfold AddNode, newListener.
    rewrite (assignNodeID_auto (-1) (bs c0) 2) by (lia || done).
    cbn [fst snd Z.ltb Z.compare]. rewrite Hl. cbn [fmap option_fmap option_map fst snd].
    cbn [set_lnNext bs ccfg]. rewrite Hn. unfold nodeIDs. cbn [set_lnNext bs].
    split; [done|]. split; [|done].
    by rewrite <- (length_fmap node), Hnodes.
Qed.

(** Swap-with-last removal, on any list: what is left is the list
    without index [i], up to order. *)
Lemma swap_remove_perm {A} (l : list A) (i : nat) (x y : A) :
  l !! i = Some x → last l = Some y →
  take (length l - 1) (<[i := y]> l) ≡ₚ delete i l.
Proof.
  intros Hi Hlast. apply last_Some in Hlast as [l' ->].
  rewrite length_app. simpl. replace (length l' + 1 - 1)%nat with (length l') by lia.
  destruct (decide (i < length l')%nat) as [Hlt|Hge].
  - rewrite insert_app_l by done.
    rewrite take_app_length' by by rewrite length_insert.
    rewrite delete_take_drop.
    rewrite insert_take_drop by done.
    rewrite take_app_le by lia.
    rewrite drop_app_le by lia.
    rewrite <- Permutation_middle. rewrite (Permutation_app_comm (drop _ _) [y]).
    simpl. by rewrite <- Permutation_middle.
  - apply lookup_lt_Some in Hi. rewrite length_app in Hi. simpl in Hi.
    assert (i = length l') as -> by lia.
    rewrite insert_app_r_alt by lia. rewrite Nat.sub_diag. simpl.
    rewrite take_app_length.
    rewrite delete_take_drop, take_app_length.
    rewrite drop_app_ge by lia.
    replace (S (length l') - length l')%nat with 1%nat by lia. simpl.
    by rewrite app_nil_r.
Qed.

Lemma RemoveNode_nodeIDs nodeID c c1 :
  RemoveNode randSrc nodeID c = (None, c1) →
  ∃ i, nodeIDs c !! i = Some nodeID
       ∧ nodeIDs c1 ≡ₚ delete i (nodeIDs c)
       ∧ (1 < length (bs c))%nat.
Proof.
  unfold RemoveNode. destruct (list_find _ (bs c)) as [[i b]|] eqn:Hf; [|done].
  apply list_find_Some in Hf as (Hi & Hn & _).
  case_decide as Hlen; [done|]. intros [= <-].
  assert (0 < length (bs c))%nat as Hpos by (apply lookup_lt_Some in Hi; lia).
  exists i. unfold nodeIDs. split; [by rewrite list_lookup_fmap, Hi; simpl; rewrite Hn|].
  split; [|lia].
  destruct (shufflePartitionsLocked_fields
              (set_bs (take (length (<[i:=set_bsIdx i (default b (last (bs c)))]>
                                       (<[i:=default b (last (bs c))]> (bs c))) - 1)
                            (<[i:=set_bsIdx i (default b (last (bs c)))]>
                               (<[i:=default b (last (bs c))]> (bs c))))
                      (set_nbrokers (wrap64 (nbrokers (ccfg c) - 1))
                                    (closeListener (ln b) c)))) as [Hb _].
  cbn [bs set_nbrokers closeListener set_lnClosed ccfg] in *. rewrite Hb.
  cbn [bs set_bs].
  destruct (last (bs c)) as [lastB|] eqn:Hlast.
  2:{ apply last_None in Hlast. rewrite Hlast in Hpos. simpl in Hpos. lia. }
  cbn [default]. rewrite list_insert_insert_eq, length_insert.
  rewrite fmap_take, list_fmap_insert. cbn [set_bsIdx node].
  rewrite <- (length_fmap node).
  apply (swap_remove_perm (node <$> bs c) i nodeID (node lastB)).
  - by rewrite list_lookup_fmap, Hi; simpl; rewrite Hn.
  - by rewrite fmap_last, Hlast.
Qed.

Lemma AddNode_nodeIDs nodeID port c :
  let r := AddNode randSrc osListen nodeID port c in
  (is_Some r.1.2 ∧ nodeIDs r.2 = nodeIDs c)
  ∨ (r.1.2 = None ∧ assignNodeID nodeID (bs c) = Some r.1.1.1
     ∧ nodeIDs r.2 = nodeIDs c ++ [r.1.1.1]).
Proof.
  intros r. subst r. unfold AddNode.
  destruct (assignNodeID nodeID (bs c)) as [id|] eqn:Ha; [|left; by split].
  unfold newListener.
  destruct (osListen (if port <? 0 then 0 else port) (lnNext c)) as [p|];
    cbn [fmap option_fmap option_map fst snd]; [|left; by split].
  right. set (c4 := set_nbrokers _ _).
  destruct (shufflePartitionsLocked_fields c4) as (Hb & _).
  unfold nodeIDs. rewrite Hb. subst c4.
  cbn [bs set_nbrokers set_bs set_nextAddr set_lnNext]. by rewrite fmap_app.
Qed.

(** C10, as amended.  The automatic ID is computed from the live broker
    list alone.  In a cluster whose node IDs are distinct [int32]s, after
    the broker with the greatest node ID [m] has been removed,
    [AddNode(-1, port)] assigns one more than the greatest ID left, which
    is at most [m]: an ID can come back.  [RemoveNode] keeps the node IDs
    distinct; [AddNode] keeps them distinct when the ID is given, or when
    every live ID is below the greatest [int32].  Both keep them
    [int32]s. *)
Theorem nodeID_reuse_spec :
  (∀ c m c1 port,
     NoDup (nodeIDs c) → Forall int32 (nodeIDs c) → isMaxNode (bs c) m →
     RemoveNode randSrc m c = (None, c1) →
     ∃ m', isMaxNode (bs c1) m' ∧ m' < m
           ∧ (AddNode randSrc osListen (-1) port c1).1.1.1 = m' + 1
           ∧ (AddNode randSrc osListen (-1) port c1).1.1.1 ≤ m)
  ∧ (∀ c nodeID,
       (NoDup (nodeIDs c) → NoDup (nodeIDs (RemoveNode randSrc nodeID c).2))
       ∧ (Forall int32 (nodeIDs c) →
          Forall int32 (nodeIDs (RemoveNode randSrc nodeID c).2)))
  ∧ (∀ c nodeID port,
       (NoDup (nodeIDs c) → Forall int32 (nodeIDs c) →
        0 ≤ nodeID ∨ (∀ z, z ∈ nodeIDs c → z < maxInt32) →
        NoDup (nodeIDs (AddNode randSrc osListen nodeID port c).2))
       ∧ (Forall int32 (nodeIDs c) → int32 nodeID →
          Forall int32 (nodeIDs (AddNode randSrc osListen nodeID port c).2))).
Proof.
  split; [|split].
  - intros c m c1 port Hnd Hty Hmax Hrm.
    destruct (RemoveNode_nodeIDs m c c1 Hrm) as (i & Hi & Hperm & Hlen).
    apply isMaxNode_ids in Hmax as [Hin Hle].
    assert (∀ z, z ∈ nodeIDs c1 → z < m ∧ int32 z) as Hlt.
    { intros z Hz. rewrite Hperm in Hz.
      apply list_elem_of_lookup in Hz as [j Hj].
      rewrite list_lookup_delete in Hj.
      assert (∃ j', j' ≠ i ∧ nodeIDs c !! j' = Some z) as (j' & Hne & Hj').
      { case_decide; [exists j|exists (S j)]; split; (done || lia). }
      assert (z ≠ m).
      { intros ->. apply Hne. by eapply NoDup_lookup. }
      assert (z ∈ nodeIDs c) as Hzin by by eapply list_elem_of_lookup_2.
      split; [specialize (Hle z Hzin); lia|].
      by apply (proj1 (Forall_forall _ _) Hty). }
    assert (∃ b0 rest, bs c1 = b0 :: rest) as (b0 & rest & Hbs1).
    { destruct (bs c1) as [|b0 rest] eqn:Hbs1; [|by eauto].
      exfalso. apply Permutation_length in Hperm.
      rewrite length_delete in Hperm by by eexists.
      unfold nodeIDs in Hperm. rewrite Hbs1, !length_fmap in Hperm.
      simpl in Hperm. lia. }
    pose proof (maxNode_isMax b0 rest) as Hm'. rewrite <- Hbs1 in Hm'.
    exists (maxNode b0 rest). split; [done|].
    pose proof Hm' as Hm''. apply isMaxNode_ids in Hm'' as [Hin' _].
    destruct (Hlt _ Hin') as [Hlt' Hty'].
    split; [done|].
    pose proof (proj1 (Forall_forall _ _) Hty m Hin) as Hm32.
    rewrite (AddNode_auto_id (-1) port c1 (maxNode b0 rest)) by (lia || done).
    rewrite wrap32_id by (unfold int32, maxInt32, minInt32 in *; lia).
    split; [done|lia].
  - intros c nodeID.
    destruct (RemoveNode randSrc nodeID c) as [[e|] c1] eqn:Hrm.
    + assert (c1 = c) as ->; [|done].
      revert Hrm. unfold RemoveNode.
      destruct (list_find _ (bs c)) as [[i b]|]; [|congruence].
      case_decide; congruence.
    + destruct (RemoveNode_nodeIDs nodeID c c1 Hrm) as (i & Hi & Hperm & _).
      cbn [snd]. split; intros H; rewrite Hperm.
      * eapply sublist_NoDup; [done|apply sublist_delete].
      * by apply Forall_delete.
  - intros c nodeID port.
    destruct (AddNode_nodeIDs nodeID port c) as [[_ ->]|(_ & Ha & ->)]; [done|].
    set (id := (AddNode randSrc osListen nodeID port c).1.1.1) in *.
    split.
    + intros Hnd Hty Hcond. apply NoDup_app. split; [done|].
      split; [|apply NoDup_singleton].
      intros z Hz Hz'. apply list_elem_of_singleton in Hz' as ->.
      unfold assignNodeID in Ha. destruct (Z.geb_spec nodeID 0) as [Hge|Hneg].
      * destruct (existsb _ (bs c)) eqn:Hex; [done|]. inversion Ha as [Hid].
        rewrite <- Hid in Hz.
        apply list_elem_of_fmap in Hz as (b & Hb & Hin).
        assert (existsb (λ b, node b =? nodeID) (bs c) = true); [|congruence].
        apply existsb_exists. exists b. split; [by apply list_elem_of_In|lia].
      * destruct Hcond as [?|Hcond]; [lia|].
        destruct (bs c) as [|b0 rest] eqn:Hbs.
        { unfold nodeIDs in Hz. rewrite Hbs in Hz. by apply elem_of_nil in Hz. }
        inversion Ha as [Hid].
        pose proof (maxNode_isMax b0 rest) as Hm. rewrite <- Hbs in Hm.
        apply isMaxNode_ids in Hm as [Hin Hle].
        specialize (Hle _ Hz). specialize (Hcond _ Hin).
        pose proof (proj1 (Forall_forall _ _) Hty _ Hin) as Hm32.
        rewrite wrap32_id in Hid; [lia|].
        unfold int32, maxInt32, minInt32 in *. lia.
    + intros Hty Hid. apply Forall_app. split; [done|].
      apply Forall_singleton. unfold assignNodeID in Ha.
      destruct (nodeID >=? 0).
      * destruct (existsb _ (bs c)); [done|].
        injection Ha as Heq. by rewrite <- Heq.
      * destruct (bs c) as [|b0 rest]; injection Ha as Heq; rewrite <- Heq;
          [done|apply wrap32_int32].
Qed.
End TopologyFacts.

(** * Facts about slices over backing arrays *)

Module GoSliceFacts.
Import GoSlice.
Section Facts.
Context {A : Type}.
Variable zero : A.
Variable grow : nat → nat.
Implicit Types (h : gmap nat (list A)) (s : slice) (x : A).

Lemma view_append1 h s x :
  wf h s →
  view (append1 zero grow h s x).1 (append1 zero grow h s x).2 = view h s ++ [x].
Proof.
  intros (_ & Hlen & Hle). unfold append1, view, arrayOf in *. case_decide as Hroom.
  - cbn [fst snd ptr len]. rewrite lookup_insert_eq.
    set (arr := match h !! ptr s with Some a => a | None => [] end) in *.
    rewrite (take_S_r _ _ x) by (apply list_lookup_insert_eq; lia).
    by rewrite take_insert_ge by lia.
  - cbn [fst snd ptr len]. rewrite lookup_insert_eq.
    set (arr := match h !! ptr s with Some a => a | None => [] end) in *.
    assert (len s = length arr) as Hfull by lia.
    rewrite Hfull, firstn_all.
    change (arr ++ x :: replicate (grow (cap s)) zero)
      with (arr ++ [x] ++ replicate (grow (cap s)) zero).
    rewrite app_assoc.
    apply take_app_length'. rewrite length_app. simpl. lia.
Qed.

(** A header read before the append still shows what it showed. *)
Lemma view_append1_stale h s x :
  wf h s →
  view (append1 zero grow h s x).1 s = view h s
  ∧ wf (append1 zero grow h s x).1 s.
Proof.
  intros ([arr Hs] & Hlen & Hle). unfold append1, view, wf, arrayOf in *.
  case_decide as Hroom.
  - cbn [fst]. rewrite lookup_insert_eq.
    rewrite take_insert_ge by lia. by rewrite length_insert.
  - cbn [fst].
    assert (ptr s ≠ fresh (dom h)) as Hne.
    { intros Heq. apply (is_fresh (dom h)). rewrite <- Heq.
      apply elem_of_dom. by eexists. }
    by rewrite lookup_insert_ne.
Qed.

Lemma view_removeAt h s i :
  wf h s → (i < len s)%nat →
  view (removeAt h s i).1 (removeAt h s i).2
  = take i (view h s) ++ drop (S i) (view h s).
Proof.
  intros (_ & Hlen & Hle) Hi. unfold removeAt, view, arrayOf in *.
  cbn [fst snd ptr len]. rewrite lookup_insert_eq.
  set (arr := match h !! ptr s with Some a => a | None => [] end) in *.
  rewrite take_take, Nat.min_l by lia.
  rewrite take_drop_commute.
  replace (S i + (len s - S i))%nat with (len s) by lia.
  rewrite app_assoc. apply take_app_length'.
  rewrite length_app, length_take, length_drop, length_take. lia.
Qed.

(** What [tryControl] leaves under the key, on slices: [append] by
    [callControl] through the map entry, then the removal through the
    header [keyFns] read before it.  The element appended is not in what
    the entry shows at the end. *)
Lemma append_then_removeAt h s x i :
  wf h s → (i < len s)%nat →
  let h1 := (append1 zero grow h s x).1 in
  view (removeAt h1 s i).1 (removeAt h1 s i).2
  = take i (view h s) ++ drop (S i) (view h s).
Proof.
  intros Hwf Hi h1.
  destruct (view_append1_stale h s x Hwf) as [Hview Hwf1].
  fold h1 in Hview, Hwf1. by rewrite (view_removeAt h1 s i Hwf1 Hi), Hview.
Qed.
End Facts.
End GoSliceFacts.

(** * Facts about the event loop *)

Section LoopFacts.
Context {U : Type}.
Variable hs : Handlers U.
Implicit Types (s : loopState U) (creq : clientReq).

Lemma wakeupsTaken_app a (l1 l2 : list (event U)) :
  wakeupsTaken a (l1 ++ l2) = (wakeupsTaken a l1 + wakeupsTaken a l2)%nat.
Proof. unfold wakeupsTaken. by rewrite filter_app, length_app. Qed.

Lemma wakeupsTaken_none a (l : list (event U)) :
  Forall (λ ev, isCleanupOf a ev = false) l → wakeupsTaken a l = 0%nat.
Proof.
  unfold wakeupsTaken. induction 1 as [|ev l Hev _ IH]; [done|].
  rewrite filter_cons_False; [done|]. by rewrite Hev.
Qed.

Lemma wakeupsTaken_cleanup a x :
  wakeupsTaken a [EvCleanup (U:=U) x] = if decide (x = a) then 1%nat else 0%nat.
Proof.
  unfold wakeupsTaken. case_decide as Hx.
  - by rewrite filter_cons_True by (cbn; by apply bool_decide_eq_true).
  - by rewrite filter_cons_False by (cbn; by rewrite bool_decide_eq_true).
Qed.

Lemma dispatch_event a creq w r c :
  isCleanupOf a (dispatch hs creq w r c).2 = false.
Proof. unfold dispatch. repeat case_match; done. Qed.

Lemma afterControl_spec creq kr er sel s :
  let r := afterControl creq kr er sel s in
  let conn := ccId (cc creq) in
  let resp := mkClientResp kr (corr creq) er in
  (kr = None → er = None → r = (s, true))
  ∧ (¬ (kr = None ∧ er = None) → sel = SendRuns →
     r = (mkLoop (l_c s) (l_u s)
                 (<[conn := default [] (respCh s !! conn) ++ [resp]]> (respCh s))
                 (cleaned s) (l_log s ++ [EvSend conn resp]), true))
  ∧ (¬ (kr = None ∧ er = None) → sel = DieRuns → r = (s, false)).
Proof.
  unfold afterControl. repeat split.
  - by intros -> ->.
  - intros Hnn ->. destruct kr, er; try done. by destruct Hnn.
  - intros Hnn ->. destruct kr, er; try done. by destruct Hnn.
Qed.

Lemma handle_frame a creq w s :
  let h := handle hs creq w s in
  respCh h.2 = respCh s ∧ cleaned h.2 = cleaned s
  ∧ ∃ new, l_log h.2 = l_log s ++ new ∧ wakeupsTaken a new = 0%nat.
Proof.
  unfold handle.
  set (t := tryControl (kreq creq) (l_c s) (l_u s)).
  assert (wakeupsTaken a (map (λ e, EvControl e.1.1 e.1.2) (t_calls t)) = 0%nat) as Hc.
  { apply wakeupsTaken_none, Forall_forall. intros ev Hev.
    apply list_elem_of_fmap in Hev as (e & -> & _). done. }
  destruct (res_handled (t_res t)); cbn [snd].
  - repeat split; try done. by eexists.
  - pose proof (dispatch_event a creq w (t_res t) (t_c t)) as Hev.
    destruct (dispatch hs creq w (t_res t) (t_c t)) as [[[kr er] c'] ev].
    cbn [snd respCh cleaned l_log] in *. repeat split; try done.
    eexists. rewrite <- app_assoc. split; [done|].
    rewrite wakeupsTaken_app, Hc. apply wakeupsTaken_none. by constructor.
Qed.

Lemma process_frame a creq w sel s :
  let r := process hs creq w sel s in
  cleaned r.1 = cleaned s
  ∧ ∃ new, l_log r.1 = l_log s ++ new ∧ wakeupsTaken a new = 0%nat.
Proof.
  unfold process.
  pose proof (handle_frame a creq w s) as (_ & Hcl & new & Hlog & Hn).
  destruct (handle hs creq w s) as [[kr er] s1]. cbn [snd] in *.
  unfold afterControl.
  destruct kr, er, sel; cbn [fst cleaned l_log]; (split; [done|]);
    first [ by exists new
          | eexists; rewrite Hlog, <- app_assoc; split; [reflexivity|];
            rewrite wakeupsTaken_app, Hn; apply wakeupsTaken_none; by constructor ].
Qed.

Local Ltac four_parts :=
  split; [done|]; split; [cbn; lia|]; split; [done|intros; cbn in *; lia].

Lemma runIter_cleanups a it sel s :
  let r := runIter hs it sel s in
  cleaned s ⊆ cleaned r.1
  ∧ ∃ new, l_log r.1 = l_log s ++ new
           ∧ (wakeupsTaken a new ≤ 1)%nat
           ∧ (a ∈ cleaned s → wakeupsTaken a new = 0%nat)
           ∧ (wakeupsTaken a new = 1%nat → a ∈ cleaned r.1).
Proof.
  destruct it as [creq|w| |fn]; cbn [runIter].
  - destruct (process_frame a creq None sel s) as (Hcl & new & Hlog & Hn).
    rewrite Hcl. split; [done|]. exists new. rewrite Hn. four_parts.
  - case_decide as Hin; cbn [fst].
    + split; [done|]. exists []. rewrite app_nil_r. four_parts.
    + destruct (process_frame a (wcreq w) (Some w) sel (cleanup w s))
        as (Hcl & new & Hlog & Hn).
      rewrite Hcl. cbn [cleanup cleaned l_log] in *.
      split; [apply union_subseteq_r|].
      exists (EvCleanup (wAddr w) :: new). rewrite Hlog, <- app_assoc.
      split; [done|].
      change (EvCleanup (wAddr w) :: new) with ([EvCleanup (wAddr w)] ++ new).
      rewrite wakeupsTaken_app, Hn, Nat.add_0_r, wakeupsTaken_cleanup.
      destruct (decide (wAddr w = a)) as [Heq|Hne].
      * subst a. split; [lia|]. split; [done|]. intros _.
        apply elem_of_union_l. by apply elem_of_singleton.
      * split; [lia|]. split; [done|]. intros; lia.
  - split; [done|]. exists []. rewrite app_nil_r. four_parts.
  - cbn [fst cleaned l_log]. split; [done|]. exists [EvAdmin].
    rewrite (wakeupsTaken_none a [EvAdmin]) by by constructor. four_parts.
Qed.

(** C8.  A wake-up taken from [watchFetchCh] whose deferred fetch is
    already cleaned leaves the whole state of the loop as it was, the
    record of calls and sends included: no control function and no handler
    is called and nothing is sent; the loop goes on.  A wake-up whose
    deferred fetch is not cleaned is taken up: the fetch is cleaned and its
    request goes through the rest of the loop body.  Hence, whatever the
    loop receives and in whatever order, the wake-up of one deferred fetch
    is taken up at most once, and never if it was cleaned before. *)
Theorem stale_wakeup_discarded :
  (∀ w sel s,
     wAddr w ∈ cleaned s → runIter hs (FromWatchFetchCh w) sel s = (s, true))
  ∧ (∀ w sel s,
       wAddr w ∉ cleaned s →
       runIter hs (FromWatchFetchCh w) sel s
       = process hs (wcreq w) (Some w) sel (cleanup w s)
       ∧ wAddr w ∈ cleaned (runIter hs (FromWatchFetchCh w) sel s).1)
  ∧ (∀ sched s a,
       ∃ new, l_log (run hs sched s) = l_log s ++ new
              ∧ (wakeupsTaken a new ≤ 1)%nat
              ∧ (a ∈ cleaned s → wakeupsTaken a new = 0%nat)).
Proof.
  split; [|split].
  - intros w sel s Hin. cbn [runIter]. by rewrite decide_True.
  - intros w sel s Hnin. cbn [runIter]. rewrite decide_False by done.
    split; [done|].
    destruct (process_frame 0 (wcreq w) (Some w) sel (cleanup w s)) as [-> _].
    cbn [cleanup cleaned]. apply elem_of_union_l. by apply elem_of_singleton.
  - intros sched. induction sched as [|[it sel] rest IH]; intros s a.
    { exists []. cbn [run]. rewrite app_nil_r.
      rewrite (wakeupsTaken_none a []) by constructor.
      split; [done|]. split; [lia|done]. }
    cbn [run].
    destruct (runIter_cleanups a it sel s) as (Hsub & new1 & Hlog1 & Hle1 & Hz1 & Hin1).
    destruct (runIter hs it sel s) as [s' go]. cbn [fst] in *.
    destruct go.
    + destruct (IH s' a) as (new2 & Hlog2 & Hle2 & Hz2).
      exists (new1 ++ new2). rewrite Hlog2, Hlog1, <- app_assoc.
      split; [done|]. rewrite wakeupsTaken_app.
      assert (wakeupsTaken a new1 = 1%nat → wakeupsTaken a new2 = 0%nat) as Hone.
      { intros H1. apply Hz2, Hin1, H1. }
      split.
      * destruct (decide (wakeupsTaken a new1 = 1%nat)) as [H1|H1]; [|lia].
        rewrite (Hone H1). lia.
      * intros Ha. rewrite (Hz1 Ha), Hz2; [done|]. by apply Hsub.
    + exists new1. by split.
Qed.

(** C9, as amended.  Let [(kr, er)] be what [kresp] and [err] hold at [afterControl]
    for a request the loop processes.  Handling sends nothing.  If both
    are nil, nothing is sent on the connection and the loop goes on.
    Otherwise the second [select] decides: if the send runs,
    [(kr, corr, er)] is put at the end of what was sent on the connection
    the request came from, and the loop goes on; if the receive from [die]
    runs, nothing is sent and the loop returns. *)
Theorem reply_spec creq w sel s :
  let h := handle hs creq w s in
  let kr := h.1.1 in
  let er := h.1.2 in
  let r := process hs creq w sel s in
  let conn := ccId (cc creq) in
  respCh h.2 = respCh s
  ∧ (kr = None → er = None → r = (h.2, true) ∧ respCh r.1 = respCh s)
  ∧ (¬ (kr = None ∧ er = None) → sel = SendRuns →
     respCh r.1 = <[conn := default [] (respCh s !! conn)
                             ++ [mkClientResp kr (corr creq) er]]> (respCh s)
     ∧ r.2 = true)
  ∧ (¬ (kr = None ∧ er = None) → sel = DieRuns →
     r = (h.2, false) ∧ respCh r.1 = respCh s).
Proof.
  intros h kr er r conn.
  destruct (handle_frame 0 creq w s) as (Hresp & _).
  fold h in Hresp. split; [done|].
  assert (r = afterControl creq kr er sel h.2) as Hr.
  { subst r kr er. unfold process. fold h. by destruct h as [[kr er] s1]. }
  destruct (afterControl_spec creq kr er sel h.2) as (Hnil & Hsend & Hdie).
  split; [|split].
  - intros Hk He. rewrite Hr, (Hnil Hk He). by split.
  - intros Hnn Hsel. rewrite Hr, (Hsend Hnn Hsel). cbn [fst snd respCh].
    by rewrite Hresp.
  - intros Hnn Hsel. rewrite Hr, (Hdie Hnn Hsel). by split.
Qed.

(** C4, as amended.  Let [fn], registered under the key of the request
    (not the wildcard), be the function whose call ended [tryControl] with
    [handled], and let it not have called [KeepControl].  Then its
    response and error are what the request is answered with, and no
    handler runs: they reach [afterControl], which sends them on the
    connection unless both are nil or the receive from [die] wins.  [fn]
    stood at index [length pre] of the list of its key; when [tryControl]
    returns that list is the old one without that index.  The functions
    called before [fn] are the ones before it in the list, none of them
    reported [handled], and they and the ones after [fn] are still there
    in the same order; the wildcard functions are still there in the same
    order.  When no function reports [handled], every list still starts
    with what it held; when a wildcard function does, the list of the
    request's key still starts with what it held. *)
Theorem handled_fn_consumed creq w sel s :
  let rq := kreq creq in
  let key := Key rq in
  let t := tryControl rq (l_c s) (l_u s) in
  let keyFns := controlAt (l_c s) key in
  let s1 := mkLoop (t_c t) (t_u t) (respCh s) (cleaned s)
                   (l_log s ++ map (λ e, EvControl e.1.1 e.1.2) (t_calls t)) in
  let r := process hs creq w sel s in
  let conn := ccId (cc creq) in
  (∀ pre fn u1,
     let kr := res_kresp (entryRes rq (key, fn, u1)) in
     let er := res_err (entryRes rq (key, fn, u1)) in
     key ≠ -1 →
     t_calls t = pre ++ [(key, fn, u1)] →
     res_handled (entryRes rq (key, fn, u1)) = true →
     OpKeepControl ∉ entryOps rq (key, fn, u1) →
     handle hs creq w s = (kr, er, s1)
     ∧ r = afterControl creq kr er sel s1
     ∧ (¬ (kr = None ∧ er = None) → sel = SendRuns →
        respCh r.1 = <[conn := default [] (respCh s !! conn)
                                ++ [mkClientResp kr (corr creq) er]]> (respCh s))
     ∧ ((kr = None ∧ er = None) ∨ sel = DieRuns → respCh r.1 = respCh s)
     ∧ keyFns !! length pre = Some fn
     ∧ controlAt (t_c t) key
       = take (length pre) keyFns ++ drop (S (length pre)) keyFns
     ∧ pre.*1 = pair key <$> take (length pre) keyFns
     ∧ Forall (λ e, res_handled (entryRes rq e) = false) pre
     ∧ controlAt (l_c s) (-1) `prefix_of` controlAt (t_c t) (-1))
  ∧ (res_handled (t_res t) = false →
     ∀ k, controlAt (l_c s) k `prefix_of` controlAt (t_c t) k)
  ∧ (∀ pre fn u1,
       key ≠ -1 →
       t_calls t = pre ++ [(-1, fn, u1)] →
       res_handled (entryRes rq (-1, fn, u1)) = true →
       keyFns `prefix_of` controlAt (t_c t) key).
Proof.
  intros rq key t keyFns s1 r conn. split; [|split].
  - intros pre fn u1 kr er Hkey Hcalls Hh _.
    destruct (tryControl_key_handled rq (l_c s) (l_u s) pre fn u1 Hkey Hcalls Hh)
      as (Hres & Hu & Hat & Hctl & Hpre & Hun & Hany).
    fold t in Hres, Hu, Hctl, Hany.
    assert (handle hs creq w s = (kr, er, s1)) as Hhandle.
    { unfold handle. fold rq t. subst kr er s1.
      unfold entryRes. cbn [fst snd]. rewrite <- Hres.
      unfold entryRes in Hh. cbn [fst snd] in Hh. rewrite <- Hres in Hh.
      by rewrite Hh. }
    assert (r = afterControl creq kr er sel s1) as Hr.
    { subst r. unfold process. by rewrite Hhandle. }
    destruct (afterControl_spec creq kr er sel s1) as (Hnil & Hsend & Hdie).
    split; [done|]. split; [done|]. split; [|split].
    + intros Hnn Hsel. by rewrite Hr, (Hsend Hnn Hsel).
    + intros [[Hk He]| Hsel].
      * by rewrite Hr, (Hnil Hk He).
      * rewrite Hr. destruct (decide (kr = None ∧ er = None)) as [[Hk He]|Hnn].
        -- by rewrite (Hnil Hk He).
        -- by rewrite (Hdie Hnn Hsel).
    + done.
  - intros Hun k. by apply tryControl_unhandled_prefix.
  - intros pre fn u1 Hkey Hcalls Hh.
    destruct (tryControl_any_handled rq (l_c s) (l_u s) pre fn u1 Hkey Hcalls Hh)
      as (anyFns & j & _ & _ & _ & _ & _ & _ & Hkeep & _).
    exact Hkeep.
Qed.
End LoopFacts.

(** * The statements at concrete inputs *)


(** The shuffle on a cluster of three brokers and two partitions. *)
Lemma ShufflePartitionLeaders_spec_witness :
  let pd := mkPartData (LeaderAt 1) 4 in
  let c' := ShufflePartitionLeaders ex_rand ex_topo in
  tps ex_topo !! ("t"%string, 1) = Some pd
  ∧ ∃ pd', tps c' !! ("t"%string, 1) = Some pd'
           ∧ epoch pd' = wrap32 (epoch pd + 1)
           ∧ (minInt32 ≤ epoch pd < maxInt32 → epoch pd' = epoch pd + 1)
           ∧ (epoch pd = maxInt32 → epoch pd' = minInt32)
           ∧ bs c' = bs ex_topo
           ∧ electedFrom (bs c') (leader pd').
Proof.
  intros pd c'. split; [reflexivity|].
  apply (ShufflePartitionLeaders_spec ex_rand ex_topo "t"%string 1 pd).
  reflexivity.
Defined.

(** A partition whose epoch is 2147483647: after the shuffle its epoch is
    -2147483648, not one more than it was. *)
Lemma epoch_wraps_at_maxInt32 :
  let pd := mkPartData (LeaderAt 0) maxInt32 in
  let c' := ShufflePartitionLeaders ex_rand ex_lastEpoch in
  tps ex_lastEpoch !! ("t"%string, 0) = Some pd
  ∧ ∃ pd', tps c' !! ("t"%string, 0) = Some pd'
           ∧ epoch pd' = minInt32
           ∧ epoch pd' ≠ epoch pd + 1.
Proof.
  intros pd c'. split; [reflexivity|].
  eexists. split; [reflexivity|]. split; [reflexivity|]. by vm_compute.
Qed.

(** Three functions under the metadata key, the second of which handles,
    and one under the wildcard key: the first two are called, in that
    order, and no other. *)
Lemma tryControl_order_witness :
  let c := ex_withControl {[ kmsgMetadata := [ex_pass; ex_once; ex_keep];
                             (-1) := [ex_silent] ]} in
  let rq := kreq ex_metadataReq in
  let t := tryControl rq c tt in
  (t_calls t).*1 = [(kmsgMetadata, ex_pass); (kmsgMetadata, ex_once)]
  ∧ t_res t = (Some (mkResponse 8), None, true)
  ∧ ∃ anyFns,
      controlAt c (-1) `prefix_of` anyFns
      ∧ (t_calls t).*1 `prefix_of`
          (pair (Key rq) <$> controlAt c (Key rq)) ++ (pair (-1) <$> anyFns)
      ∧ match last (t_calls t) with
        | None => t_res t = (None, None, false)
        | Some e => t_res t = entryRes rq e
        end.
Proof.
  intros c rq t. split; [reflexivity|]. split; [reflexivity|].
  destruct (tryControl_order rq c tt) as [_ (anyFns & H1 & H2 & _ & H4 & _ & _)].
  exists anyFns. split; [exact H1|]. split; [exact H2|exact H4].
Defined.

(** A function registered for the metadata key that reports [handled]
    with no response and no error, and does not ask to be kept: the loop
    calls it and sends nothing on the connection of the request.  And one
    that reports [handled] with a response, while the receive from [die]
    wins the second [select]: nothing is sent either. *)
Lemma handled_nil_result_not_delivered :
  let c := ex_withControl {[ kmsgMetadata := [ex_silent] ]} in
  let c' := ex_withControl {[ kmsgMetadata := [ex_once] ]} in
  let rq := kreq ex_metadataReq in
  let r := runIter ex_hs (FromReqCh ex_metadataReq) SendRuns (ex_loop c) in
  let r' := runIter ex_hs (FromReqCh ex_metadataReq) DieRuns (ex_loop c') in
  t_calls (tryControl rq c tt) = [(kmsgMetadata, ex_silent, tt)]
  ∧ entryRes rq (kmsgMetadata, ex_silent, tt) = (None, None, true)
  ∧ entryOps rq (kmsgMetadata, ex_silent, tt) = []
  ∧ l_log r.1 = [EvControl kmsgMetadata ex_silent]
  ∧ respCh r.1 = ∅
  ∧ (respCh r.1 !! ccId (cc ex_metadataReq))
    ≠ Some [mkClientResp None (corr ex_metadataReq) None]
  ∧ t_calls (tryControl rq c' tt) = [(kmsgMetadata, ex_once, tt)]
  ∧ entryRes rq (kmsgMetadata, ex_once, tt) = (Some (mkResponse 8), None, true)
  ∧ l_log r'.1 = [EvControl kmsgMetadata ex_once]
  ∧ respCh r'.1 = ∅
  ∧ r'.2 = false.
Proof.
  intros c c' rq r r'. split; [reflexivity|]. split; [reflexivity|].
  split; [reflexivity|]. split; [reflexivity|]. split; [reflexivity|].
  split; [discriminate|]. split; [reflexivity|]. split; [reflexivity|].
  split; [reflexivity|]. split; reflexivity.
Qed.

(** A function that passes and then one that handles once, under the
    metadata key, and one under the wildcard key: the response of the
    second is sent, it is gone from the list, the others stay. *)
Lemma handled_fn_consumed_witness :
  let c := ex_withControl {[ kmsgMetadata := [ex_pass; ex_once]; (-1) := [ex_keep] ]} in
  let s := ex_loop c in
  let rq := kreq ex_metadataReq in
  let t := tryControl rq c tt in
  let r := process ex_hs ex_metadataReq None SendRuns s in
  let cp := ex_withControl {[ kmsgMetadata := [ex_pass] ]} in
  t_calls t = [(kmsgMetadata, ex_pass, tt)] ++ [(kmsgMetadata, ex_once, tt)]
  ∧ res_handled (entryRes rq (kmsgMetadata, ex_once, tt)) = true
  ∧ (OpKeepControl ∉ entryOps rq (kmsgMetadata, ex_once, tt))
  ∧ respCh r.1 = {[ 5%nat := [mkClientResp (Some (mkResponse 8)) 11 None] ]}
  ∧ controlAt (t_c t) kmsgMetadata = [ex_pass]
  ∧ controlAt (t_c t) (-1) = [ex_keep]
  ∧ res_handled (t_res (tryControl rq cp tt)) = false
  ∧ controlAt cp kmsgMetadata `prefix_of` controlAt (t_c (tryControl rq cp tt)) kmsgMetadata.
Proof.
  intros c s rq t r cp.
  assert (OpKeepControl ∉ entryOps rq (kmsgMetadata, ex_once, tt)) as Hnk.
  { apply not_elem_of_nil. }
  destruct (handled_fn_consumed ex_hs ex_metadataReq None SendRuns s)
    as (Hkey & _ & _).
  destruct (Hkey [(kmsgMetadata, ex_pass, tt)] ex_once tt)
    as (_ & _ & Hsend & _ & _ & Hctl & _).
  - discriminate.
  - reflexivity.
  - reflexivity.
  - exact Hnk.
  - destruct (handled_fn_consumed ex_hs ex_metadataReq None SendRuns (ex_loop cp))
      as (_ & Hpass & _).
    split; [reflexivity|]. split; [reflexivity|]. split; [exact Hnk|].
    split; [|split; [exact Hctl|split; [reflexivity|split; [reflexivity|]]]].
    + subst r. rewrite Hsend; [reflexivity| |reflexivity].
      intros [Hk _]. discriminate Hk.
    + exact (Hpass eq_refl kmsgMetadata).
Defined.

(** Partition 0 of topic "t" moved to node 2, which exists, and to node
    7, which does not. *)
Lemma MoveTopicPartition_spec_witness :
  let r := MoveTopicPartition "t"%string 0 2 ex_topo in
  let r' := MoveTopicPartition "t"%string 0 7 ex_topo in
  (∃ b, b ∈ bs ex_topo ∧ node b = 2)
  ∧ tps ex_topo !! ("t"%string, 0) = Some (mkPartData (LeaderAt 0) 0)
  ∧ (∀ b, b ∈ bs ex_topo → node b ≠ 7)
  ∧ (∃ br, br ∈ bs ex_topo ∧ node br = 2 ∧ r.1 = None
           ∧ tps r.2 !! ("t"%string, 0) = Some (mkPartData (LeaderAt (baddr br)) 0)
           ∧ (∀ k, k ≠ ("t"%string, 0) → tps r.2 !! k = tps ex_topo !! k)
           ∧ bs r.2 = bs ex_topo)
  ∧ is_Some r'.1 ∧ r'.2 = ex_topo.
Proof.
  intros r r'.
  assert (∃ b, b ∈ bs ex_topo ∧ node b = 2) as Hex.
  { exists (ex_broker 2). split; [|reflexivity].
    apply list_elem_of_further, list_elem_of_further, list_elem_of_here. }
  assert (∀ b, b ∈ bs ex_topo → node b ≠ 7) as Hno.
  { intros b Hb. cbn in Hb.
    repeat (apply elem_of_cons in Hb as [->|Hb]; [discriminate|]).
    by apply elem_of_nil in Hb. }
  split; [exact Hex|]. split; [reflexivity|]. split; [exact Hno|].
  split.
  - apply (proj1 (MoveTopicPartition_spec "t"%string 0 2 ex_topo)
                  (mkPartData (LeaderAt 0) 0)); [exact Hex|reflexivity].
  - apply (proj2 (MoveTopicPartition_spec "t"%string 0 7 ex_topo)).
    left. exact Hno.
Defined.


(** With a live broker whose node ID is 2147483647, [AddNode(-1, 0)]
    assigns -2147483648, not one more than the greatest ID.  And on a
    fresh cluster of three brokers, when the operating system refuses the
    listener, [AddNode(-1, 0)] returns node ID 3, port 0 and an error, and
    three brokers are left. *)
Lemma AddNode_wraps_at_maxInt32 :
  isMaxNode (bs ex_top) maxInt32
  ∧ (AddNode ex_rand ex_os (-1) 0 ex_top).1 = (minInt32, 49154, None)
  ∧ (AddNode ex_rand ex_os (-1) 0 ex_top).1.1.1 ≠ maxInt32 + 1
  ∧ NewCluster ex_os3 defaultCfg (0, 0, 0)%nat = NewOk ex_new
  ∧ (AddNode ex_rand ex_os3 (-1) 0 ex_new).1 = (3, 0, Some (ErrListen 0))
  ∧ length (bs (AddNode ex_rand ex_os3 (-1) 0 ex_new).2) = 3%nat.
Proof.
  split.
  { split.
    - exists (mkBroker 1 (mkListener 1 49153) maxInt32 1). split; [|reflexivity].
      apply list_elem_of_further, list_elem_of_here.
    - intros b Hb. cbn in Hb.
      repeat (apply elem_of_cons in Hb as [->|Hb]; [by vm_compute|]).
      by apply elem_of_nil in Hb. }
  split; [by vm_compute|]. split; [by vm_compute|].
  split; [by vm_compute|]. split; by vm_compute.
Qed.

(** On the fresh cluster of three brokers: node ID 1 is taken, and
    [AddNode(-1, 0)] returns node ID 3 and the port bound. *)
Lemma AddNode_spec_witness :
  let r := AddNode ex_rand ex_os 1 0 ex_new in
  let r0 := AddNode ex_rand ex_os (-1) 0 ex_new in
  (∃ b, b ∈ bs ex_new ∧ node b = 1)
  ∧ NewCluster ex_os defaultCfg (0, 0, 0)%nat = NewOk ex_new
  ∧ ex_os 0 (lnNext ex_new) = Some 49155
  ∧ r = ((1, 0, Some (ErrNodeExists 1)), ex_new)
  ∧ r0.1 = (3, 49155, None) ∧ 0 < r0.1.1.2
  ∧ length (bs r0.2) = 4%nat ∧ nbrokers (ccfg r0.2) = 4
  ∧ nodeIDs r0.2 = [0; 1; 2; 3].
Proof.
  intros r r0.
  assert (∃ b, b ∈ bs ex_new ∧ node b = 1) as Hex.
  { exists (ex_broker 1). split; [|reflexivity].
    apply list_elem_of_further, list_elem_of_here. }
  split; [exact Hex|]. split; [reflexivity|]. split; [reflexivity|].
  destruct (AddNode_spec ex_rand ex_os 1 0 ex_new)
    as (Hdup & _ & _ & _ & _ & Hfresh & _).
  split.
  - apply Hdup; [lia|exact Hex].
  - apply (Hfresh (0, 0, 0)%nat ex_new 49155); [reflexivity|reflexivity|lia].
Defined.

(** The wake-up of one deferred fetch received twice: the first is
    taken up and answered, the second changes nothing. *)
Lemma stale_wakeup_discarded_witness :
  let s0 := ex_loop ex_topo in
  let s1 := (runIter ex_hs (FromWatchFetchCh ex_watch) SendRuns s0).1 in
  let both := [(FromWatchFetchCh ex_watch, SendRuns);
               (FromWatchFetchCh ex_watch, SendRuns)] in
  (wAddr ex_watch ∉ cleaned s0)
  ∧ wAddr ex_watch ∈ cleaned s1
  ∧ runIter ex_hs (FromWatchFetchCh ex_watch) SendRuns s1 = (s1, true)
  ∧ l_log (run ex_hs both s0)
    = [EvCleanup 9; EvHandler kmsgFetch;
       EvSend 5 (mkClientResp (Some (mkResponse 1)) 13 None)]
  ∧ ∃ new, l_log (run ex_hs both s0) = l_log s0 ++ new
           ∧ (wakeupsTaken 9 new ≤ 1)%nat.
Proof.
  intros s0 s1 both.
  destruct (stale_wakeup_discarded ex_hs) as (Hstale & Hfresh & Honce).
  assert (wAddr ex_watch ∉ cleaned s0) as Hnin by apply not_elem_of_empty.
  destruct (Hfresh ex_watch SendRuns s0 Hnin) as [_ Hin].
  split; [exact Hnin|]. split; [exact Hin|].
  split; [exact (Hstale ex_watch SendRuns s1 Hin)|].
  split; [reflexivity|].
  destruct (Honce both s0 9%nat) as (new & Hlog & Hle & _).
  exists new. split; [exact Hlog|exact Hle].
Defined.

(** A metadata request whose handler gives a response and no error,
    while the receive from [die] wins the second [select]: nothing is sent
    on the connection and the loop returns. *)
Lemma reply_dropped_on_shutdown :
  let s := ex_loop ex_topo in
  let h := handle ex_hs ex_metadataReq None s in
  let r := runIter ex_hs (FromReqCh ex_metadataReq) DieRuns s in
  h.1 = (Some (mkResponse 1), None)
  ∧ respCh r.1 = ∅
  ∧ l_log r.1 = [EvHandler kmsgMetadata]
  ∧ r.2 = false
  ∧ (respCh r.1 !! ccId (cc ex_metadataReq))
    ≠ Some [mkClientResp (Some (mkResponse 1)) (corr ex_metadataReq) None].
Proof.
  intros s h r. split; [reflexivity|]. split; [reflexivity|].
  split; [reflexivity|]. split; [reflexivity|]. discriminate.
Qed.

(** A produce request answered with nothing, and a metadata request
    answered with a response, with the send and with [die]. *)
Lemma reply_spec_witness :
  let s := ex_loop ex_topo in
  let hp := handle ex_hs ex_produceReq None s in
  let hm := handle ex_hs ex_metadataReq None s in
  (hp.1.1 = None ∧ hp.1.2 = None)
  ∧ ¬ (hm.1.1 = None ∧ hm.1.2 = None)
  ∧ process ex_hs ex_produceReq None SendRuns s = (hp.2, true)
  ∧ respCh (process ex_hs ex_produceReq None SendRuns s).1 = ∅
  ∧ respCh (process ex_hs ex_metadataReq None SendRuns s).1
    = {[ 5%nat := [mkClientResp (Some (mkResponse 1)) 11 None] ]}
  ∧ process ex_hs ex_metadataReq None DieRuns s = (hm.2, false).
Proof.
  intros s hp hm.
  assert (¬ (hm.1.1 = None ∧ hm.1.2 = None)) as Hnn.
  { intros [Hk _]. discriminate Hk. }
  destruct (reply_spec ex_hs ex_produceReq None SendRuns s) as (_ & Hnil & _).
  destruct (reply_spec ex_hs ex_metadataReq None SendRuns s) as (_ & _ & Hsend & _).
  destruct (reply_spec ex_hs ex_metadataReq None DieRuns s) as (_ & _ & _ & Hdie).
  split; [split; reflexivity|]. split; [exact Hnn|].
  destruct (Hnil eq_refl eq_refl) as [Hp1 Hp2].
  split; [exact Hp1|]. split; [exact Hp2|].
  split.
  - rewrite (proj1 (Hsend Hnn eq_refl)). reflexivity.
  - exact (proj1 (Hdie Hnn eq_refl)).
Defined.

(** The cluster [ex_new] after [AddNode(2147483647, 0)], [AddNode(-1, 0)]
    and [AddNode(-1, 0)], and what is left of it after the brokers 0, 1, 2
    and 2147483647 are removed. *)
Lemma nodeIDs_duplicate_after_wrap :
  let add n c := (AddNode ex_rand ex_os n 0 c).2 in
  let rm n c := (RemoveNode ex_rand n c).2 in
  let c1 := add (-1) (add (-1) (add maxInt32 ex_new)) in
  let c2 := rm maxInt32 (rm 2 (rm 1 (rm 0 c1))) in
  NewCluster ex_os defaultCfg (0, 0, 0)%nat = NewOk ex_new
  ∧ nodeIDs c1 = [0; 1; 2; maxInt32; minInt32; minInt32]
  ∧ ¬ NoDup (nodeIDs c1)
  ∧ nodeIDs c2 = [minInt32; minInt32]
  ∧ isMaxNode (bs c2) minInt32
  ∧ RemoveNode ex_rand minInt32 c2 = (None, rm minInt32 c2)
  ∧ (AddNode ex_rand ex_os (-1) 0 (rm minInt32 c2)).1.1.1 = minInt32 + 1
  ∧ ¬ (AddNode ex_rand ex_os (-1) 0 (rm minInt32 c2)).1.1.1 ≤ minInt32.
Proof.
  intros add rm c1 c2.
  assert (nodeIDs c1 = [0; 1; 2; maxInt32; minInt32; minInt32]) as H1
    by by vm_compute.
  assert (nodeIDs c2 = [minInt32; minInt32]) as H2 by by vm_compute.
  split; [by vm_compute|]. split; [exact H1|]. split.
  { rewrite H1. intros Hnd.
    do 4 (apply NoDup_cons in Hnd as [_ Hnd]).
    apply NoDup_cons in Hnd as [Hnin _]. apply Hnin, list_elem_of_here. }
  split; [exact H2|]. split.
  { apply isMaxNode_ids. fold (nodeIDs c2). rewrite H2. split.
    - apply list_elem_of_here.
    - intros z Hz. repeat (apply elem_of_cons in Hz as [->|Hz]; [done|]).
      by apply elem_of_nil in Hz. }
  split; [by vm_compute|]. split; by vm_compute.
Qed.

(** On the fresh cluster of three brokers: node 2 removed, then
    [AddNode(-1, 0)] gives node ID 2 again. *)
Lemma nodeID_reuse_spec_witness :
  let c1 := (RemoveNode ex_rand 2 ex_new).2 in
  NoDup (nodeIDs ex_new) ∧ Forall int32 (nodeIDs ex_new)
  ∧ isMaxNode (bs ex_new) 2
  ∧ RemoveNode ex_rand 2 ex_new = (None, c1)
  ∧ (AddNode ex_rand ex_os (-1) 0 c1).1.1.1 = 2
  ∧ NoDup (nodeIDs c1)
  ∧ NoDup (nodeIDs (AddNode ex_rand ex_os (-1) 0 c1).2)
  ∧ ∃ m', isMaxNode (bs c1) m' ∧ m' < 2
          ∧ (AddNode ex_rand ex_os (-1) 0 c1).1.1.1 = m' + 1
          ∧ (AddNode ex_rand ex_os (-1) 0 c1).1.1.1 ≤ 2.
Proof.
  intros c1.
  assert (NoDup (nodeIDs ex_new)) as Hnd.
  { apply (bool_decide_unpack _). reflexivity. }
  assert (Forall int32 (nodeIDs ex_new)) as Hty.
  { repeat constructor; vm_compute; discriminate. }
  assert (isMaxNode (bs ex_new) 2) as Hmax.
  { split.
    - exists (ex_broker 2). split; [|reflexivity].
      apply list_elem_of_further, list_elem_of_further, list_elem_of_here.
    - intros b Hb. cbn in Hb.
      repeat (apply elem_of_cons in Hb as [->|Hb]; [cbn; lia|]).
      by apply elem_of_nil in Hb. }
  assert (RemoveNode ex_rand 2 ex_new = (None, c1)) as Hrm by reflexivity.
  destruct (nodeID_reuse_spec ex_rand ex_os (U:=unit)) as (Hreuse & Hrem & Hadd).
  assert (NoDup (nodeIDs c1)) as Hnd1.
  { exact (proj1 (Hrem ex_new 2) Hnd). }
  assert (Forall int32 (nodeIDs c1)) as Hty1.
  { exact (proj2 (Hrem ex_new 2) Hty). }
  split; [exact Hnd|]. split; [exact Hty|]. split; [exact Hmax|].
  split; [exact Hrm|]. split; [reflexivity|]. split; [exact Hnd1|].
  split.
  - apply (proj1 (Hadd c1 (-1) 0) Hnd1 Hty1). right.
    intros z Hz. change (nodeIDs c1) with [0; 1] in Hz.
    repeat (apply elem_of_cons in Hz as [->|Hz]; [reflexivity|]).
    by apply elem_of_nil in Hz.
  - exact (Hreuse ex_new 2 c1 0 Hnd Hty Hmax Hrm).
Defined.

(** * Further facts *)

(** ** The registry after [tryControl] *)

Section RegistryMore.
Context {U : Type}.
Implicit Types (c : Cluster U) (fn : controlFn U) (st : tried U).

Lemma regsOf_app rq k (l1 l2 : list (Z * controlFn U * U)) :
  regsOf rq k (l1 ++ l2) = regsOf rq k l1 ++ regsOf rq k l2.
Proof. unfold regsOf. by rewrite fmap_app, concat_app. Qed.

Lemma runOp_regs c op k :
  controlAt (runOp c op) k = controlAt c k ++ regsAt k [op].
Proof.
  destruct op as [|fn|k' fn]; cbn [runOp regsAt omap list_omap].
  - by rewrite app_nil_r.
  - unfold Control. rewrite controlAt_append.
    destruct (decide (-1 = k)) as [<-|Hne].
    + by rewrite decide_True.
    + rewrite decide_False by done. by rewrite app_nil_r.
  - unfold ControlKey. rewrite controlAt_append.
    destruct (decide (k' = k)) as [->|Hne]; [done|by rewrite app_nil_r].
Qed.

Lemma runOps_regs ops : ∀ c k,
  controlAt (foldl runOp c ops) k = controlAt c k ++ regsAt k ops.
Proof.
  induction ops as [|op ops IH]; intros c k; cbn [foldl].
  { by rewrite app_nil_r. }
  rewrite IH, runOp_regs, <- app_assoc. f_equal.
  unfold regsAt. cbn [omap list_omap]. by destruct (_ : option (controlFn U)).
Qed.

Lemma callControl_regs key req fn c u k :
  k ≠ key ∨ res_handled (body fn req u).1.1 = false →
  controlAt (callControl key req fn c u).1.2 k
  = controlAt c k ++ regsAt k (body fn req u).1.2.
Proof.
  unfold callControl. destruct (body fn req u) as [[r ops] u']. cbn [fst snd].
  pose proof (runOps_regs ops (set_keep false c) k) as Hops.
  rewrite controlAt_set_keep in Hops.
  intros Hk. destruct (res_handled r) eqn:Hh; [|done].
  destruct Hk as [Hk|Hk]; [|congruence].
  destruct (keepCurrentControl _); [|done].
  rewrite controlAt_set_control, lookup_insert_ne by done. exact Hops.
Qed.

Lemma tryFns_regs key kreq all fns : ∀ i st new k,
  t_calls (tryFns key kreq all i fns st) = t_calls st ++ new →
  k ≠ key ∨ res_handled (t_res (tryFns key kreq all i fns st)) = false →
  controlAt (t_c (tryFns key kreq all i fns st)) k
  = controlAt (t_c st) k ++ regsOf kreq k new.
Proof.
  induction fns as [|fn rest IH]; intros i st new k Hcalls Hk; cbn [tryFns] in *.
  { rewrite <- (app_nil_r (t_calls st)) in Hcalls at 1.
    apply app_inv_head in Hcalls. subst new. by rewrite app_nil_r. }
  pose proof (callControl_res key kreq fn (t_c st) (t_u st)) as [Hr _].
  pose proof (callControl_regs key kreq fn (t_c st) (t_u st) k) as Hregs.
  destruct (callControl key kreq fn (t_c st) (t_u st)) as [[r c'] u'].
  cbn [fst snd] in Hr, Hregs. rewrite <- Hr in Hregs.
  destruct (res_handled r) eqn:Hh.
  - cbn [t_calls t_c t_res] in *. apply app_inv_head in Hcalls. subst new.
    destruct Hk as [Hk|Hk]; [|congruence].
    rewrite controlAt_set_control, lookup_insert_ne by done.
    change (default [] (control c' !! k)) with (controlAt c' k).
    rewrite (Hregs (or_introl Hk)). unfold regsOf. cbn. by rewrite app_nil_r.
  - set (st' := mkTried r c' u' (t_calls st ++ [(key, fn, t_u st)])) in *.
    destruct (tryFns_log key kreq all rest (S i) st') as (new' & Hc' & _).
    rewrite Hc' in Hcalls. cbn [t_calls st'] in Hcalls.
    rewrite <- app_assoc in Hcalls. apply app_inv_head in Hcalls. subst new.
    rewrite (IH (S i) st' new' k Hc' Hk). cbn [t_c st'].
    by rewrite (Hregs (or_intror eq_refl)), <- app_assoc.
Qed.

Lemma tryFns_last_key key kreq all fns i st new e :
  t_calls (tryFns key kreq all i fns st) = t_calls st ++ new →
  last new = Some e → e.1.1 = key.
Proof.
  intros Hcalls Hlast.
  destruct (tryFns_log key kreq all fns i st) as (new' & Hc & Hfst & _).
  rewrite Hc in Hcalls. apply app_inv_head in Hcalls. subst new'.
  apply last_Some in Hlast as [l ->].
  assert (e.1 ∈ pair key <$> take (length (l ++ [e])) fns) as Hin.
  { rewrite <- Hfst, fmap_app. apply elem_of_app. right.
    by apply list_elem_of_singleton. }
  by apply list_elem_of_fmap in Hin as (g & -> & _).
Qed.

Lemma tryFns_handled_nonempty key kreq all fns i st new :
  t_calls (tryFns key kreq all i fns st) = t_calls st ++ new →
  res_handled (t_res st) = false →
  res_handled (t_res (tryFns key kreq all i fns st)) = true →
  ∃ e, last new = Some e.
Proof.
  intros Hcalls Hst Ht.
  destruct (tryFns_log key kreq all fns i st) as (new' & Hc & _ & _ & Hlast).
  rewrite Hc in Hcalls. apply app_inv_head in Hcalls. subst new'.
  destruct (last new) as [e|]; [by eexists|].
  destruct Hlast as [Heq _]. rewrite Heq in Ht. congruence.
Qed.

Lemma tryControl_regs kreq c u k :
  let t := tryControl kreq c u in
  consumedKey t ≠ Some k →
  controlAt (t_c t) k = controlAt c k ++ regsOf kreq k (t_calls t).
Proof.
  intros t. pose (key := Key kreq).
  intros Hk. subst t. unfold consumedKey, tryControl in *.
  case_decide as Hsize.
  { unfold regsOf. cbn. by rewrite app_nil_r. }
  set (keyFns := controlAt c (Key kreq)) in *.
  set (st0 := mkTried (None, None, false) c u []) in *.
  destruct (tryFns_log key kreq keyFns keyFns 0 st0) as (new1 & Hc1 & _).
  pose proof (tryFns_regs key kreq keyFns keyFns 0 st0 new1 k Hc1) as Hr1.
  pose proof (tryFns_last_key key kreq keyFns keyFns 0 st0 new1) as Hk1.
  pose proof (tryFns_handled_nonempty key kreq keyFns keyFns 0 st0 new1 Hc1 eq_refl)
    as Hne1.
  fold key in Hk |- *.
  set (st1 := tryFns key kreq keyFns 0 keyFns st0) in *.
  cbn [t_calls st0 app] in Hc1.
  destruct (res_handled (t_res st1)) eqn:Hh1.
  + rewrite Hh1 in Hk. rewrite Hc1 in Hk |- *. apply Hr1. left.
    destruct (Hne1 eq_refl) as [e He]. rewrite He in Hk. cbn in Hk.
    rewrite (Hk1 e Hc1 He) in Hk. congruence.
  + specialize (Hr1 (or_intror eq_refl)). cbn [t_c st0] in Hr1.
    set (anyFns := controlAt (t_c st1) (-1)) in *.
    destruct (tryFns_log (-1) kreq anyFns anyFns 0 st1) as (new2 & Hc2 & _).
    pose proof (tryFns_regs (-1) kreq anyFns anyFns 0 st1 new2 k Hc2) as Hr2.
    pose proof (tryFns_last_key (-1) kreq anyFns anyFns 0 st1 new2) as Hk2.
    pose proof (tryFns_handled_nonempty (-1) kreq anyFns anyFns 0 st1 new2 Hc2 Hh1)
      as Hne2.
    set (st2 := tryFns (-1) kreq anyFns 0 anyFns st1) in *.
    rewrite Hc2, Hc1, regsOf_app, app_assoc, <- Hr1. apply Hr2.
    destruct (res_handled (t_res st2)) eqn:Hh2; [left|by right].
    destruct (Hne2 eq_refl) as [e He].
    rewrite Hc2, Hc1 in Hk.
    assert (last (new1 ++ new2) = Some e) as Hl.
    { apply last_Some in He as [l ->]. by rewrite app_assoc, last_snoc. }
    rewrite Hl in Hk. cbn in Hk. rewrite (Hk2 e Hc2 He) in Hk. congruence.
Qed.

Lemma tryControl_consumed kreq c u :
  let t := tryControl kreq c u in
  let key := Key kreq in
  key ≠ -1 → consumedKey t = Some key →
  ∃ i, (S i = length (t_calls t))%nat
       ∧ controlAt (t_c t) key
         = take i (controlAt c key) ++ drop (S i) (controlAt c key).
Proof.
  intros t key.
  intros Hkey Hcons. unfold consumedKey in Hcons.
  destruct (res_handled (t_res t)) eqn:Hh; [|done].
  destruct (last (t_calls t)) as [[[k fn] u1]|] eqn:Hlast; [|done].
  cbn in Hcons. injection Hcons as ->.
  apply last_Some in Hlast as [pre Hcalls].
  assert (t_res t = entryRes kreq (key, fn, u1)) as Hres.
  { subst t. unfold tryControl in *. case_decide as Hsize.
    { cbn in Hcalls. by destruct pre. }
    set (keyFns := controlAt c (Key kreq)) in *.
    set (st0 := mkTried (None, None, false) c u []) in *.
    destruct (tryFns_log (Key kreq) kreq keyFns keyFns 0 st0)
      as (new1 & Hc1 & _ & _ & Hl1).
    set (st1 := tryFns (Key kreq) kreq keyFns 0 keyFns st0) in *.
    cbn [t_calls st0 app] in Hc1.
    destruct (res_handled (t_res st1)) eqn:Hh1.
    - rewrite Hc1 in Hcalls. subst new1. rewrite last_snoc in Hl1. tauto.
    - exfalso.
      set (anyFns := controlAt (t_c st1) (-1)) in *.
      destruct (tryFns_log (-1) kreq anyFns anyFns 0 st1) as (new2 & Hc2 & _ & _ & Hl2).
      pose proof (tryFns_last_key (-1) kreq anyFns anyFns 0 st1 new2) as Hk2.
      set (st2 := tryFns (-1) kreq anyFns 0 anyFns st1) in *.
      destruct (last new2) as [e2|] eqn:He2.
      + specialize (Hk2 e2 Hc2 eq_refl).
        apply last_Some in He2 as [l ->].
        rewrite Hc2, Hc1, app_assoc in Hcalls.
        apply app_inj_tail in Hcalls as [_ ->]. cbn in Hk2. by apply Hkey.
      + destruct Hl2 as [Heq _]. rewrite Heq in Hh. congruence. }
  rewrite Hres in Hh.
  destruct (tryControl_key_handled kreq c u pre fn u1 Hkey Hcalls Hh)
    as (_ & _ & _ & Hctl & _).
  exists (length pre). split; [|exact Hctl].
  fold t. rewrite Hcalls, length_app. cbn. lia.
Qed.

(** X1.  The registry [tryControl] leaves, key by key.  Under every key
    but the one whose function ended the search with [handled], the list
    is the one on entry followed by what the called functions registered
    under that key, in the order of the calls.  Under the key whose
    function ended the search, when it is the key of the request, the
    list is the one on entry without the function that handled: what the
    called functions registered under that key during this search is not
    there. *)
Theorem tryControl_registry kreq c u :
  let t := tryControl kreq c u in
  let key := Key kreq in
  (∀ k, consumedKey t ≠ Some k →
        controlAt (t_c t) k = controlAt c k ++ regsOf kreq k (t_calls t))
  ∧ (key ≠ -1 → consumedKey t = Some key →
     ∃ i, (S i = length (t_calls t))%nat
          ∧ controlAt (t_c t) key
            = take i (controlAt c key) ++ drop (S i) (controlAt c key)).
Proof.
  intros t key. split.
  - intros k. apply tryControl_regs.
  - apply tryControl_consumed.
Qed.

Lemma tryFns_set_keep key kreq all i fn rest r c u calls b :
  tryFns key kreq all i (fn :: rest) (mkTried r (set_keep b c) u calls)
  = tryFns key kreq all i (fn :: rest) (mkTried r c u calls).
Proof. reflexivity. Qed.

(** X2.  [KeepControl] called when no control function is running has no
    effect on the next request: [callControl] resets the flag before it
    runs a function.  Whatever the flag is on entry, [tryControl] makes
    the same calls, returns the same results and leaves the same registry;
    if it called a function at all, it leaves the same cluster. *)
Theorem tryControl_ignores_stale_keep kreq c u b :
  let t := tryControl kreq c u in
  let t' := tryControl kreq (set_keep b c) u in
  t_res t' = t_res t ∧ t_u t' = t_u t ∧ t_calls t' = t_calls t
  ∧ control (t_c t') = control (t_c t)
  ∧ (t_calls t ≠ [] → t_c t' = t_c t).
Proof.
  intros t t'. subst t t'. unfold tryControl.
  change (control (set_keep b c)) with (control c).
  change (controlAt (set_keep b c) (Key kreq)) with (controlAt c (Key kreq)).
  case_decide as Hsize; [by cbn|].
  destruct (controlAt c (Key kreq)) as [|fn rest] eqn:Hkey.
  - cbn [tryFns t_res res_handled snd t_c].
    change (controlAt (set_keep b c) (-1)) with (controlAt c (-1)).
    destruct (controlAt c (-1)) as [|gn rest'] eqn:Hany; [by cbn|].
    rewrite tryFns_set_keep. by repeat split.
  - rewrite tryFns_set_keep. by repeat split.
Qed.

Lemma tryControl_calls_prefix kreq c u :
  ∃ anyFns,
    (t_calls (tryControl kreq c u)).*1 `prefix_of`
      (pair (Key kreq) <$> controlAt c (Key kreq)) ++ (pair (-1) <$> anyFns).
Proof.
  unfold tryControl. case_decide as Hsize.
  { exists []. apply prefix_nil. }
  set (keyFns := controlAt c (Key kreq)).
  set (st0 := mkTried (None, None, false) c u []).
  destruct (tryFns_log (Key kreq) kreq keyFns keyFns 0 st0)
    as (new1 & Hc1 & Hfst1 & _).
  pose proof (tryFns_log_all (Key kreq) kreq keyFns keyFns 0 st0 new1 Hc1) as Hall1.
  set (st1 := tryFns (Key kreq) kreq keyFns 0 keyFns st0) in *.
  cbn [t_calls st0 app] in Hc1.
  destruct (res_handled (t_res st1)) eqn:Hh1.
  - exists []. rewrite Hc1, Hfst1. apply prefix_app_r, prefix_fmap_take.
  - destruct (Hall1 eq_refl) as [Hall _].
    set (anyFns := controlAt (t_c st1) (-1)).
    destruct (tryFns_log (-1) kreq anyFns anyFns 0 st1) as (new2 & Hc2 & Hfst2 & _).
    exists anyFns. rewrite Hc2, Hc1, fmap_app, Hall, Hfst2.
    apply prefix_app, prefix_fmap_take.
Qed.

(** X3.  After a request's own key has had a function consumed, the next
    request of that key is offered the functions that were left under the
    key, in their order, and then wildcard functions: the entry that was
    consumed is not among the calls made under the key. *)
Theorem next_request_skips_consumed kreq c u kreq2 u2 :
  let t := tryControl kreq c u in
  let key := Key kreq in
  let keyFns := controlAt c key in
  key ≠ -1 → consumedKey t = Some key → Key kreq2 = key →
  ∃ i anyFns,
    (S i = length (t_calls t))%nat
    ∧ (t_calls (tryControl kreq2 (t_c t) u2)).*1 `prefix_of`
        (pair key <$> (take i keyFns ++ drop (S i) keyFns))
        ++ (pair (-1) <$> anyFns)
    ∧ ∀ e, e ∈ t_calls (tryControl kreq2 (t_c t) u2) → e.1.1 = key →
           e.1.2 ∈ take i keyFns ++ drop (S i) keyFns.
Proof.
  intros t key keyFns Hkey Hcons Hkey2.
  destruct (tryControl_consumed kreq c u Hkey Hcons) as (i & Hi & Hctl).
  fold t key keyFns in Hi, Hctl.
  destruct (tryControl_calls_prefix kreq2 (t_c t) u2) as (anyFns & Hpre).
  rewrite Hkey2, Hctl in Hpre.
  exists i, anyFns. split; [exact Hi|]. split; [exact Hpre|].
  intros e He Hek.
  assert (e.1 ∈ (t_calls (tryControl kreq2 (t_c t) u2)).*1) as Hin.
  { apply list_elem_of_fmap. by exists e. }
  apply (elem_of_prefix _ _ _ Hin) in Hpre.
  apply elem_of_app in Hpre as [Hin1|Hin2].
  - apply list_elem_of_fmap in Hin1 as (g & Heq & Hg). by rewrite Heq.
  - apply list_elem_of_fmap in Hin2 as (g & Heq & _). rewrite Heq in Hek.
    cbn in Hek. congruence.
Qed.
End RegistryMore.

(** ** Shutting down *)

Section CloseFacts.
Context {U : Type}.
Implicit Types (c : Cluster U) (b : broker).

Lemma closeAll_spec (l : list broker) : ∀ c,
  let c' := foldl (λ c' b, closeListener (ln b) c') c l in
  lnClosed c' = lnClosed c ∪ list_to_set ((λ b, lnId (ln b)) <$> l)
  ∧ bs c' = bs c ∧ tps c' = tps c ∧ control c' = control c ∧ dead c' = dead c
  ∧ ccfg c' = ccfg c ∧ controller c' = controller c.
Proof.
  induction l as [|b l IH]; intros c; cbn [foldl fmap list_fmap list_to_set].
  - split; [by rewrite (right_id_L ∅ (∪))|done].
  - destruct (IH (closeListener (ln b) c)) as (H1 & H2 & H3 & H4 & H5 & H6 & H7).
    cbv zeta. rewrite H1, H2, H3, H4, H5, H6, H7.
    cbn [closeListener set_lnClosed lnClosed bs tps control dead ccfg controller].
    split; [|done]. apply set_eq. intros y. rewrite !elem_of_union. tauto.
Qed.

(** X15. [Close] marks the cluster dead and closes the listener of every
    broker, leaving the brokers, the topology and the registry as they
    are; on a cluster that is dead already it does nothing, so a second
    [Close] changes nothing. *)
Theorem Close_spec c :
  let c' := Close c in
  dead c' = true
  ∧ (dead c = false →
     lnClosed c' = lnClosed c ∪ list_to_set ((λ b, lnId (ln b)) <$> bs c))
  ∧ (dead c = true → c' = c)
  ∧ bs c' = bs c ∧ tps c' = tps c ∧ control c' = control c
  ∧ Close c' = c'.
Proof.
  intros c'. subst c'. destruct (dead c) eqn:Hd.
  - assert (Close c = c) as -> by (unfold Close; by rewrite Hd).
    split; [done|]. split; [done|]. split; [done|]. split; [done|].
    split; [done|]. split; [done|]. unfold Close. by rewrite Hd.
  - assert (Close c = foldl (λ c' b, closeListener (ln b) c') (set_dead true c) (bs c))
      as Hc by (unfold Close; by rewrite Hd).
    destruct (closeAll_spec (bs c) (set_dead true c)) as (H1 & H2 & H3 & H4 & H5 & _).
    rewrite <- Hc in *.
    cbn [set_dead lnClosed bs tps control dead] in *.
    split; [done|]. split; [done|]. split; [done|]. split; [done|].
    split; [done|]. split; [done|]. unfold Close at 1. by rewrite H5.
Qed.

(** [Close] on a cluster that is not dead. *)
Lemma Close_live c :
  dead c = false →
  dead (Close c) = true ∧ bs (Close c) = bs c
  ∧ ∀ b, b ∈ bs c → lnId (ln b) ∈ lnClosed (Close c).
Proof.
  intros Hd. unfold Close. rewrite Hd.
  destruct (closeAll_spec (bs c) (set_dead true c)) as (H1 & H2 & _ & _ & H5 & _).
  split; [by rewrite H5|]. split; [by rewrite H2|].
  intros b Hb. rewrite H1. apply elem_of_union_r, elem_of_list_to_set.
  apply list_elem_of_fmap. by exists b.
Qed.
End CloseFacts.

(** ** The cluster [NewCluster] makes *)

Section TopologyMore.
Context {U : Type}.
Variable osListen : Z → nat → option Z.
Implicit Types (c : Cluster U) (b : broker) (pd : partData).

(** The state of the cluster but for the brokers, the addresses and the
    listeners: what the loop of [NewCluster] does not touch. *)
Lemma newBrokers_ok n : ∀ k c c',
  newBrokers osListen n (Z.of_nat k) c = inr c' →
  ∃ made,
    bs c' = bs c ++ made ∧ length made = n
    ∧ (∀ j b, made !! j = Some b →
              node b = wrap32 (Z.of_nat (k + j))
              ∧ bsIdx b = (length (bs c) + j)%nat
              ∧ baddr b = (nextAddr c + j)%nat
              ∧ osListen (portAt (ccfg c) (k + j)) (lnNext c + j)
                = Some (lnPort (ln b)))
    ∧ ccfg c' = ccfg c ∧ control c' = control c ∧ tps c' = tps c
    ∧ dead c' = dead c ∧ controller c' = controller c.
Proof.
  induction n as [|n IH]; intros k c c' Hnew; cbn [newBrokers] in Hnew.
  { injection Hnew as <-. exists []. rewrite app_nil_r.
    split; [done|]. split; [done|]. split; [|done].
    intros j b Hj. by rewrite lookup_nil in Hj. }
  unfold newListener in Hnew. cbn [fst snd] in Hnew.
  assert (match ports (ccfg c) with
          | [] => 0
          | p0 :: _ => default p0 (ports (ccfg c) !! Z.to_nat (Z.of_nat k))
          end = portAt (ccfg c) k) as Hport.
  { unfold portAt. by rewrite Nat2Z.id. }
  rewrite Hport in Hnew.
  destruct (osListen (portAt (ccfg c) k) (lnNext c)) as [p|] eqn:Hl;
    cbn [fmap option_fmap option_map] in Hnew; [|done].
  replace (Z.of_nat k + 1) with (Z.of_nat (S k)) in Hnew by lia.
  apply IH in Hnew as (made & Hbs & Hlen & Hmade & Hcfg & Hctl & Htps & Hdead & Hcon).
  cbn [bs set_bs set_nextAddr set_lnNext ccfg control tps dead controller
       nextAddr lnNext] in *.
  exists (mkBroker (nextAddr c) (mkListener (lnNext c) p)
                   (wrap32 (Z.of_nat k)) (length (bs c)) :: made).
  split; [by rewrite Hbs, <- app_assoc|]. split; [cbn; by rewrite Hlen|].
  split; [|done].
  intros [|j] b Hj; cbn in Hj.
  - injection Hj as <-. cbn [node bsIdx baddr ln lnPort].
    rewrite !Nat.add_0_r. done.
  - destruct (Hmade j b Hj) as (H1 & H2 & H3 & H4).
    rewrite length_app in H2. cbn in H2.
    replace (k + S j)%nat with (S k + j)%nat by lia.
    replace (lnNext c + S j)%nat with (S (lnNext c) + j)%nat by lia.
    split; [done|]. split; [lia|]. split; [lia|done].
Qed.

Lemma newBrokers_fail n : ∀ k c j,
  (j < n)%nat →
  (∀ i, (i < j)%nat → is_Some (osListen (portAt (ccfg c) (k + i)) (lnNext c + i))) →
  osListen (portAt (ccfg c) (k + j)) (lnNext c + j) = None →
  ∃ c', newBrokers osListen n (Z.of_nat k) c
        = inl (ErrListen (portAt (ccfg c) (k + j)), Close c')
        ∧ length (bs c') = (length (bs c) + j)%nat ∧ dead c' = dead c.
Proof.
  induction n as [|n IH]; intros k c j Hj Hbefore Hfail; [lia|].
  cbn [newBrokers]. unfold newListener. cbn [fst snd].
  assert (match ports (ccfg c) with
          | [] => 0
          | p0 :: _ => default p0 (ports (ccfg c) !! Z.to_nat (Z.of_nat k))
          end = portAt (ccfg c) k) as ->.
  { unfold portAt. by rewrite Nat2Z.id. }
  destruct j as [|j].
  - rewrite !Nat.add_0_r in *. rewrite Hfail. cbn [fmap option_fmap option_map].
    eexists. split; [reflexivity|]. cbn [set_lnNext bs dead]. split; [lia|done].
  - destruct (Hbefore 0%nat) as [p Hp]; [lia|]. rewrite !Nat.add_0_r in Hp.
    rewrite Hp. cbn [fmap option_fmap option_map].
    replace (Z.of_nat k + 1) with (Z.of_nat (S k)) by lia.
    set (c1 := set_bs _ _).
    destruct (IH (S k) c1 j) as (c' & Heq & Hlen & Hdead).
    + lia.
    + intros i Hi. subst c1. cbn [ccfg set_bs set_nextAddr set_lnNext lnNext].
      replace (S k + i)%nat with (k + S i)%nat by lia.
      replace (S (lnNext c) + i)%nat with (lnNext c + S i)%nat by lia.
      apply Hbefore. lia.
    + subst c1. cbn [ccfg set_bs set_nextAddr set_lnNext lnNext].
      replace (S k + j)%nat with (k + S j)%nat by lia.
      replace (S (lnNext c) + j)%nat with (lnNext c + S j)%nat by lia.
      exact Hfail.
    + exists c'. rewrite Heq. subst c1.
      cbn [ccfg set_bs set_nextAddr set_lnNext bs dead] in *.
      replace (S k + j)%nat with (k + S j)%nat by lia.
      split; [done|]. rewrite length_app in Hlen. cbn [length] in Hlen.
      split; [lia|done].
Qed.

Lemma newBrokers_all n : ∀ k c,
  (∀ i, (i < n)%nat → is_Some (osListen (portAt (ccfg c) (k + i)) (lnNext c + i))) →
  ∃ c', newBrokers osListen n (Z.of_nat k) c = inr c'.
Proof.
  induction n as [|n IH]; intros k c Hall; [by eexists|].
  cbn [newBrokers]. unfold newListener. cbn [fst snd].
  assert (match ports (ccfg c) with
          | [] => 0
          | p0 :: _ => default p0 (ports (ccfg c) !! Z.to_nat (Z.of_nat k))
          end = portAt (ccfg c) k) as ->.
  { unfold portAt. by rewrite Nat2Z.id. }
  destruct (Hall 0%nat) as [p Hp]; [lia|]. rewrite !Nat.add_0_r in Hp.
  rewrite Hp. cbn [fmap option_fmap option_map].
  replace (Z.of_nat k + 1) with (Z.of_nat (S k)) by lia.
  apply IH. intros i Hi. cbn [ccfg set_bs set_nextAddr set_lnNext lnNext].
  replace (S k + i)%nat with (k + S i)%nat by lia.
  replace (S (lnNext c) + i)%nat with (lnNext c + S i)%nat by lia.
  apply Hall. lia.
Qed.

(** The [cfg] the cluster starts from: [nbrokers] is the number of ports
    when ports are given. *)
Lemma NewCluster_unfold cfg0 pos addr lnk :
  ∃ cfg1, ports cfg1 = ports cfg0
    ∧ Z.to_nat (nbrokers cfg1) = brokersWanted cfg0
    ∧ (0 < brokersWanted cfg0 → nbrokers cfg1 = Z.of_nat (brokersWanted cfg0))%nat
    ∧ (∀ i, portAt cfg1 i = portAt cfg0 i)
    ∧ NewCluster (U:=U) osListen cfg0 (pos, addr, lnk)
      = match newBrokers osListen (brokersWanted cfg0) (Z.of_nat 0)
                (mkCluster cfg1 None [] ∅ false ∅ false pos addr lnk ∅) with
        | inl (e, c') => NewPanicClose e c'
        | inr c' =>
            match last (bs c') with
            | None => NewPanic
            | Some b => NewOk (set_controller (Some (baddr b)) c')
            end
        end.
Proof.
  unfold NewCluster, brokersWanted, portAt. destruct (ports cfg0) as [|p0 ps] eqn:Hp.
  - exists cfg0. rewrite Hp. split; [done|]. split; [done|].
    split; [lia|]. split; done.
  - exists (mkCfg (Z.of_nat (length (p0 :: ps))) (p0 :: ps)).
    cbn [ports nbrokers]. rewrite Nat2Z.id. done.
Qed.

(** X4. When [NewCluster] returns a cluster, it has as many brokers as
    ports were given ([nbrokers] of them when none was), at least one; the
    broker at position [i] has node ID [i] (as an [int32]), knows its
    position, and listens on what the operating system bound for the
    [i]-th port asked; the controller is the last broker; [cfg.nbrokers]
    is the number of brokers; no control function is registered and the
    cluster is not dead. *)
Theorem NewCluster_ok cfg0 pos addr lnk c :
  NewCluster osListen cfg0 (pos, addr, lnk) = NewOk c →
  let n := brokersWanted cfg0 in
  (0 < n)%nat ∧ length (bs c) = n ∧ nbrokers (ccfg c) = Z.of_nat n
  ∧ ports (ccfg c) = ports cfg0
  ∧ (∀ i b, bs c !! i = Some b →
            node b = wrap32 (Z.of_nat i) ∧ bsIdx b = i
            ∧ osListen (portAt cfg0 i) (lnk + i) = Some (lnPort (ln b)))
  ∧ (∃ b, last (bs c) = Some b ∧ controller c = Some (baddr b))
  ∧ control c = ∅ ∧ dead c = false.
Proof.
  intros Hnew n.
  destruct (NewCluster_unfold cfg0 pos addr lnk) as (cfg1 & Hports & _ & Hn & Hport & Heq).
  rewrite Heq in Hnew. clear Heq.
  destruct (newBrokers _ _ _ _) as [[e cx]|c'] eqn:Hb; [done|].
  destruct (last (bs c')) as [bl|] eqn:Hlast; [|done].
  injection Hnew as <-.
  apply newBrokers_ok in Hb as (made & Hbs & Hlen & Hmade & Hcfg & Hctl & _ & Hdead & _).
  cbn [bs ccfg control dead nextAddr lnNext app length] in *.
  cbn [set_controller bs ccfg control dead controller].
  rewrite Hbs in *. fold n in Hlen.
  assert (0 < n)%nat as Hpos.
  { destruct made; [done|]. cbn in Hlen. lia. }
  split; [done|]. split; [done|]. rewrite Hcfg. split; [by apply Hn|].
  split; [done|]. split; [|split; [by exists bl|done]].
  intros i b Hi. destruct (Hmade i b Hi) as (H1 & H2 & _ & H4).
  rewrite Hport in H4. done.
Qed.

(** X5. How [NewCluster] ends is decided by the listeners.  With no
    broker to make it panics: the controller is read from an empty list.
    When a listener cannot be made it panics as well, and returns no
    error: at the first such listener, at position [j], the loop body
    closes the cluster, which has the [j] brokers made so far, so that
    their listeners are closed and the cluster is dead; then the deferred
    function calls [Close] on the nil result.  When every listener can be
    made it returns a cluster. *)
Theorem NewCluster_outcome cfg0 pos addr lnk :
  let n := brokersWanted cfg0 in
  let listens i := osListen (portAt cfg0 i) (lnk + i) in
  (n = 0%nat → NewCluster (U:=U) osListen cfg0 (pos, addr, lnk) = NewPanic)
  ∧ (∀ j, (j < n)%nat → (∀ i, (i < j)%nat → is_Some (listens i)) →
          listens j = None →
          ∃ c, NewCluster (U:=U) osListen cfg0 (pos, addr, lnk)
               = NewPanicClose (ErrListen (portAt cfg0 j)) (Close c)
               ∧ dead c = false ∧ length (bs c) = j
               ∧ dead (Close c) = true ∧ bs (Close c) = bs c
               ∧ ∀ b, b ∈ bs c → lnId (ln b) ∈ lnClosed (Close c))
  ∧ ((0 < n)%nat → (∀ i, (i < n)%nat → is_Some (listens i)) →
     ∃ c, NewCluster (U:=U) osListen cfg0 (pos, addr, lnk) = NewOk c).
Proof.
  intros n listens.
  destruct (NewCluster_unfold cfg0 pos addr lnk) as (cfg1 & Hports & _ & Hn & Hport & ->).
  fold n. split; [|split].
  - intros ->. done.
  - intros j Hj Hbefore Hfail.
    destruct (newBrokers_fail n 0
                (mkCluster cfg1 None [] ∅ false ∅ false pos addr lnk ∅) j)
      as (c & -> & Hlen & Hdead); cbn [ccfg lnNext Nat.add].
    + done.
    + intros i Hi. rewrite Hport. by apply Hbefore.
    + rewrite Hport. exact Hfail.
    + cbn [bs dead length Nat.add] in Hlen, Hdead.
      exists c. rewrite Hport. split; [done|]. split; [done|]. split; [done|].
      by apply Close_live.
  - intros Hpos Hall.
    destruct (newBrokers_all n 0 (mkCluster cfg1 None [] ∅ false ∅ false pos addr lnk ∅))
      as [c' Hc'].
    { intros i Hi. cbn [ccfg lnNext Nat.add]. rewrite Hport. by apply Hall. }
    rewrite Hc'.
    apply newBrokers_ok in Hc' as (made & Hbs & Hlen & _).
    cbn [bs app] in Hbs. subst made.
    destruct (last (bs c')) as [b|] eqn:Hlast; [by eexists|].
    apply last_None in Hlast. rewrite Hlast in Hlen. cbn [length] in Hlen. lia.
Qed.
End TopologyMore.

(** ** What the administrative operations keep *)

Section AdminFacts.
Context {U : Type}.
Variable randSrc : nat → nat.
Variable osListen : Z → nat → option Z.
Implicit Types (c : Cluster U) (b : broker) (pd : partData).

(** The three ways [AddNode] ends. *)
Lemma AddNode_cases nodeID port c :
  let r := AddNode randSrc osListen nodeID port c in
  let port1 := if port <? 0 then 0 else port in
  (assignNodeID nodeID (bs c) = None
   ∧ r = ((nodeID, port, Some (ErrNodeExists nodeID)), c))
  ∨ (∃ id, assignNodeID nodeID (bs c) = Some id
           ∧ osListen port1 (lnNext c) = None
           ∧ r = ((id, port1, Some (ErrListen port1)), set_lnNext (S (lnNext c)) c))
  ∨ (∃ id p c',
       assignNodeID nodeID (bs c) = Some id
       ∧ osListen port1 (lnNext c) = Some p
       ∧ r = ((id, p, None), shufflePartitionsLocked randSrc c')
       ∧ bs c' = bs c ++ [mkBroker (nextAddr c) (mkListener (lnNext c) p) id
                                   (length (bs c))]
       ∧ tps c' = tps c
       ∧ nbrokers (ccfg c') = wrap64 (nbrokers (ccfg c) + 1)
       ∧ ports (ccfg c') = ports (ccfg c)
       ∧ controller c' = controller c ∧ control c' = control c
       ∧ dead c' = dead c ∧ lnClosed c' = lnClosed c).
Proof.
  intros r port1. subst r. unfold AddNode.
  destruct (assignNodeID nodeID (bs c)) as [id|] eqn:Ha; [|by left].
  right. unfold newListener. fold port1.
  destruct (osListen port1 (lnNext c)) as [p|] eqn:Hl;
    cbn [fmap option_fmap option_map].
  - right. eexists id, p, _. split; [done|]. split; [done|].
    split; [reflexivity|]. cbn. done.
  - left. exists id. done.
Qed.

(** The two ways [RemoveNode] ends. *)
Lemma RemoveNode_cases nodeID c :
  let r := RemoveNode randSrc nodeID c in
  (is_Some r.1 ∧ r.2 = c)
  ∨ (∃ i b lastB c',
       bs c !! i = Some b ∧ node b = nodeID
       ∧ (∀ j b', bs c !! j = Some b' → (j < i)%nat → node b' ≠ nodeID)
       ∧ last (bs c) = Some lastB ∧ (1 < length (bs c))%nat
       ∧ r = (None, shufflePartitionsLocked randSrc c')
       ∧ bs c' = take (length (bs c) - 1) (<[i := set_bsIdx i lastB]> (bs c))
       ∧ tps c' = tps c
       ∧ nbrokers (ccfg c') = wrap64 (nbrokers (ccfg c) - 1)
       ∧ ports (ccfg c') = ports (ccfg c)
       ∧ controller c' = controller c ∧ control c' = control c
       ∧ dead c' = dead c ∧ lnClosed c' = {[lnId (ln b)]} ∪ lnClosed c).
Proof.
  intros r. subst r. unfold RemoveNode.
  destruct (list_find _ (bs c)) as [[i b]|] eqn:Hf; [|by left].
  apply list_find_Some in Hf as (Hi & Hn & Hfirst).
  case_decide as Hlen; [by left|]. right.
  assert (0 < length (bs c))%nat as Hpos by (apply lookup_lt_Some in Hi; lia).
  destruct (last (bs c)) as [lastB|] eqn:Hlast.
  2:{ apply last_None in Hlast. rewrite Hlast in Hpos. simpl in Hpos. lia. }
  eexists i, b, lastB, _. split; [done|]. split; [done|].
  split; [intros j b' Hj Hlt; by apply (Hfirst j b')|].
  split; [done|]. split; [lia|]. split; [reflexivity|].
  cbn [bs set_bs set_nbrokers closeListener set_lnClosed ccfg tps nbrokers ports
       controller control dead lnClosed]. rewrite Hlast. cbn [default].
  rewrite list_insert_insert_eq, length_insert. done.
Qed.

(** [MoveTopicPartition] changes the topology only, and there it
    overwrites one partition that exists. *)
Lemma MoveTopicPartition_cases topic partition nodeID c :
  let r := MoveTopicPartition topic partition nodeID c in
  (is_Some r.1 ∧ r.2 = c)
  ∨ (∃ br pd, br ∈ bs c ∧ node br = nodeID
              ∧ tps c !! (topic, partition) = Some pd
              ∧ r = (None, set_tps (<[(topic, partition)
                                      := mkPartData (LeaderAt (baddr br)) (epoch pd)]>
                                      (tps c)) c)).
Proof.
  intros r. subst r. unfold MoveTopicPartition, getp.
  destruct (find _ (bs c)) as [br|] eqn:Hf; [|by left].
  destruct (tps c !! (topic, partition)) as [pd|] eqn:Hp; [|by left].
  right. exists br, pd. apply find_some in Hf as [Hin Hn].
  split; [by apply list_elem_of_In|]. split; [lia|]. done.
Qed.

(** After a reshuffle every partition is led by a live broker, or by
    nobody when there is no broker. *)
Lemma shufflePartitionsLocked_leadersLive c :
  leadersLive (shufflePartitionsLocked randSrc c).
Proof.
  intros k pd' Hk.
  pose proof (shufflePartitionsLocked_tps randSrc c k) as Hs.
  destruct (shufflePartitionsLocked_fields randSrc c) as [Hbs _].
  destruct (tps c !! k) as [pd|]; [|by rewrite Hs in Hk].
  destruct Hs as (pd'' & Hk' & _ & Hel). rewrite Hk' in Hk. injection Hk as <-.
  rewrite Hbs. unfold electedFrom in Hel.
  destruct (bs c) as [|b0 l]; [by left|by right].
Qed.

Lemma shufflePartitionsLocked_dom c k :
  is_Some (tps (shufflePartitionsLocked randSrc c) !! k) ↔ is_Some (tps c !! k).
Proof.
  pose proof (shufflePartitionsLocked_tps randSrc c k) as Hs.
  destruct (tps c !! k) as [pd|].
  - destruct Hs as (pd' & -> & _). split; by eexists.
  - rewrite Hs. done.
Qed.

(** *** Every broker knows its position *)

Lemma adminFn_bsIdxOk op c : bsIdxOk c → bsIdxOk (adminFn randSrc osListen op c).
Proof.
  intros Hok. destruct op as [topic partition nodeID|nodeID port|nodeID|];
    cbn [adminFn].
  - destruct (MoveTopicPartition_cases topic partition nodeID c)
      as [[_ ->]|(br & pd & _ & _ & _ & ->)]; done.
  - destruct (AddNode_cases nodeID port c)
      as [[_ ->]|[(id & _ & _ & ->)|(id & p & c' & _ & _ & -> & Hbs & _)]];
      [done|done|].
    cbn [snd]. unfold bsIdxOk.
    destruct (shufflePartitionsLocked_fields randSrc c') as [-> _]. rewrite Hbs.
    intros i b Hi. apply lookup_app_Some in Hi as [Hi|[Hge Hi]]; [by apply Hok|].
    apply list_lookup_singleton_Some in Hi as [Hi <-]. cbn [bsIdx]. lia.
  - destruct (RemoveNode_cases nodeID c)
      as [[_ ->]|(i & b & lastB & c' & Hi & _ & _ & Hlast & Hlen & -> & Hbs & _)];
      [done|].
    cbn [snd]. unfold bsIdxOk.
    destruct (shufflePartitionsLocked_fields randSrc c') as [-> _]. rewrite Hbs.
    intros j b' Hj. apply lookup_take_Some in Hj as [Hj Hlt].
    destruct (decide (i = j)) as [->|Hne].
    + rewrite list_lookup_insert_eq in Hj by (by apply lookup_lt_Some in Hi).
      by injection Hj as <-.
    + rewrite list_lookup_insert_ne in Hj by done. by apply Hok.
  - unfold ShufflePartitionLeaders, bsIdxOk.
    destruct (shufflePartitionsLocked_fields randSrc c) as [-> _]. done.
Qed.

(** *** The broker list never becomes empty *)

Lemma adminFn_nonempty op c : bs c ≠ [] → bs (adminFn randSrc osListen op c) ≠ [].
Proof.
  intros Hne. destruct op as [topic partition nodeID|nodeID port|nodeID|];
    cbn [adminFn].
  - destruct (MoveTopicPartition_cases topic partition nodeID c)
      as [[_ ->]|(br & pd & _ & _ & _ & ->)]; done.
  - destruct (AddNode_cases nodeID port c)
      as [[_ ->]|[(id & _ & _ & ->)|(id & p & c' & _ & _ & -> & Hbs & _)]];
      [done|done|].
    cbn [snd]. destruct (shufflePartitionsLocked_fields randSrc c') as [-> _].
    rewrite Hbs. by destruct (bs c).
  - destruct (RemoveNode_cases nodeID c)
      as [[_ ->]|(i & b & lastB & c' & Hi & _ & _ & Hlast & Hlen & -> & Hbs & _)];
      [done|].
    cbn [snd]. destruct (shufflePartitionsLocked_fields randSrc c') as [-> _].
    rewrite Hbs. intros Hnil. apply (f_equal length) in Hnil.
    rewrite length_take, length_insert in Hnil. cbn [length] in Hnil. lia.
  - unfold ShufflePartitionLeaders.
    destruct (shufflePartitionsLocked_fields randSrc c) as [-> _]. done.
Qed.

(** *** Leaders are live brokers *)

Lemma adminFn_leadersLive op c :
  leadersLive c → leadersLive (adminFn randSrc osListen op c).
Proof.
  intros Hok. destruct op as [topic partition nodeID|nodeID port|nodeID|];
    cbn [adminFn].
  - destruct (MoveTopicPartition_cases topic partition nodeID c)
      as [[_ ->]|(br & pd & Hbr & _ & _ & ->)]; [done|].
    cbn [snd]. intros k pd' Hk. cbn [tps set_tps bs] in *.
    destruct (decide (k = (topic, partition))) as [->|Hne].
    + rewrite lookup_insert_eq in Hk. injection Hk as <-. right. by exists br.
    + rewrite lookup_insert_ne in Hk by done. by apply (Hok k).
  - destruct (AddNode_cases nodeID port c)
      as [[_ ->]|[(id & _ & _ & ->)|(id & p & c' & _ & _ & -> & _)]];
      [done|done|].
    apply shufflePartitionsLocked_leadersLive.
  - destruct (RemoveNode_cases nodeID c)
      as [[_ ->]|(i & b & lastB & c' & _ & _ & _ & _ & _ & -> & _)]; [done|].
    apply shufflePartitionsLocked_leadersLive.
  - apply shufflePartitionsLocked_leadersLive.
Qed.

(** *** Partitions are neither made nor deleted *)

Lemma adminFn_dom op c k :
  is_Some (tps (adminFn randSrc osListen op c) !! k) ↔ is_Some (tps c !! k).
Proof.
  destruct op as [topic partition nodeID|nodeID port|nodeID|]; cbn [adminFn].
  - destruct (MoveTopicPartition_cases topic partition nodeID c)
      as [[_ ->]|(br & pd & Hbr & _ & Hp & ->)]; [done|].
    cbn [snd tps set_tps].
    destruct (decide (k = (topic, partition))) as [->|Hne].
    + rewrite lookup_insert_eq, Hp. split; by eexists.
    + by rewrite lookup_insert_ne.
  - destruct (AddNode_cases nodeID port c)
      as [[_ ->]|[(id & _ & _ & ->)|(id & p & c' & _ & _ & -> & _ & Ht & _)]];
      [done|done|].
    cbn [snd]. by rewrite shufflePartitionsLocked_dom, Ht.
  - destruct (RemoveNode_cases nodeID c)
      as [[_ ->]|(i & b & lastB & c' & _ & _ & _ & _ & _ & -> & _ & Ht & _)];
      [done|].
    cbn [snd]. by rewrite shufflePartitionsLocked_dom, Ht.
  - apply shufflePartitionsLocked_dom.
Qed.

(** *** The controller, the registry and the ports asked for *)

Lemma adminFn_frame op c :
  let c' := adminFn randSrc osListen op c in
  controller c' = controller c ∧ control c' = control c ∧ dead c' = dead c
  ∧ ports (ccfg c') = ports (ccfg c).
Proof.
  destruct op as [topic partition nodeID|nodeID port|nodeID|]; cbn [adminFn].
  - destruct (MoveTopicPartition_cases topic partition nodeID c)
      as [[_ ->]|(br & pd & Hbr & _ & Hp & ->)]; done.
  - destruct (AddNode_cases nodeID port c)
      as [[_ ->]|[(id & _ & _ & ->)
                 |(id & p & c' & _ & _ & -> & _ & _ & _ & H1 & H2 & H3 & H4 & _)]];
      [done|done|].
    cbn [snd].
    destruct (shufflePartitionsLocked_fields randSrc c')
      as (_ & -> & -> & _ & _ & _ & -> & -> & _). done.
  - destruct (RemoveNode_cases nodeID c)
      as [[_ ->]|(i & b & lastB & c' & _ & _ & _ & _ & _ & -> & _ & _ & _
                  & H1 & H2 & H3 & H4 & _)]; [done|].
    cbn [snd].
    destruct (shufflePartitionsLocked_fields randSrc c')
      as (_ & -> & -> & _ & _ & _ & -> & -> & _). done.
  - unfold ShufflePartitionLeaders.
    destruct (shufflePartitionsLocked_fields randSrc c)
      as (_ & -> & -> & _ & _ & _ & -> & -> & _). done.
Qed.

(** *** [cfg.nbrokers] counts the brokers *)

Lemma wrap64_id z : - 2 ^ 63 ≤ z < 2 ^ 63 → wrap64 z = z.
Proof.
  unfold wrap64. intros Hz.
  rewrite Z.mod_small by lia. lia.
Qed.

Lemma adminFn_countOk op c :
  countOk c → Z.of_nat (length (bs c)) < 2 ^ 63 - 1 →
  countOk (adminFn randSrc osListen op c)
  ∧ (length (bs (adminFn randSrc osListen op c)) ≤ S (length (bs c)))%nat.
Proof.
  unfold countOk. intros Hok Hlen.
  destruct op as [topic partition nodeID|nodeID port|nodeID|]; cbn [adminFn].
  - destruct (MoveTopicPartition_cases topic partition nodeID c)
      as [[_ ->]|(br & pd & Hbr & _ & Hp & ->)]; cbn [snd set_tps bs ccfg];
      (split; [done|lia]).
  - destruct (AddNode_cases nodeID port c)
      as [[_ ->]|[(id & _ & _ & ->)
                 |(id & p & c' & _ & _ & -> & Hbs & _ & Hn & _)]];
      cbn [snd set_lnNext bs ccfg]; [split; [done|lia]..|].
    destruct (shufflePartitionsLocked_fields randSrc c') as (-> & -> & _).
    rewrite Hn, Hbs, Hok, length_app. cbn [length].
    rewrite wrap64_id by lia. split; lia.
  - destruct (RemoveNode_cases nodeID c)
      as [[_ ->]|(i & b & lastB & c' & _ & _ & _ & _ & Hl & -> & Hbs & _ & Hn & _)];
      [split; [done|lia]|].
    cbn [snd].
    destruct (shufflePartitionsLocked_fields randSrc c') as (-> & -> & _).
    rewrite Hn, Hbs, Hok, length_take, length_insert.
    rewrite wrap64_id by lia. split; lia.
  - unfold ShufflePartitionLeaders.
    destruct (shufflePartitionsLocked_fields randSrc c) as (-> & -> & _).
    split; [done|lia].
Qed.

(** X6. Whatever administrative operations run, in whatever order and
    whether they succeed or fail, every broker's [bsIdx] stays its position
    in [c.bs] (which [RemoveNode] relies on to move the last broker into
    the hole), and the broker list does not become empty. *)
Theorem admin_keeps_positions ops c :
  bsIdxOk c → bs c ≠ [] →
  let c' := adminSeq randSrc osListen ops c in
  bsIdxOk c' ∧ bs c' ≠ [].
Proof.
  revert c. induction ops as [|op ops IH]; intros c Hidx Hne; [done|].
  cbn [adminSeq foldl]. apply IH.
  - by apply adminFn_bsIdxOk.
  - by apply adminFn_nonempty.
Qed.

(** X7. Whatever administrative operations run, no partition is made or
    deleted, and every partition stays led by a broker that is in [c.bs]
    at that moment (or by nobody): a partition is never left with a
    removed broker as its leader. *)
Theorem admin_keeps_leaders_live ops c :
  leadersLive c →
  let c' := adminSeq randSrc osListen ops c in
  leadersLive c' ∧ ∀ k, is_Some (tps c' !! k) ↔ is_Some (tps c !! k).
Proof.
  revert c. induction ops as [|op ops IH]; intros c Hlive; [done|].
  cbn [adminSeq foldl].
  destruct (IH (adminFn randSrc osListen op c)) as [H1 H2];
    [by apply adminFn_leadersLive|].
  split; [done|]. intros k. unfold adminSeq in H2. rewrite H2.
  apply adminFn_dom.
Qed.

(** X8. [cfg.nbrokers] stays the number of brokers through any sequence
    of administrative operations, as long as the count stays below the
    greatest [int]. *)
Theorem admin_keeps_count ops c :
  countOk c → Z.of_nat (length (bs c)) + Z.of_nat (length ops) < 2 ^ 63 →
  countOk (adminSeq randSrc osListen ops c).
Proof.
  revert c. induction ops as [|op ops IH]; intros c Hok Hlen; [done|].
  cbn [adminSeq foldl]. cbn [length] in Hlen.
  destruct (adminFn_countOk op c Hok) as [Hok' Hlen']; [lia|].
  apply IH; [done|lia].
Qed.

(** X9. No administrative operation touches the controller, the control
    registry or the [dead] flag: in particular the controller is not
    elected again when brokers are added or removed. *)
Theorem admin_frame ops c :
  let c' := adminSeq randSrc osListen ops c in
  controller c' = controller c ∧ control c' = control c ∧ dead c' = dead c
  ∧ ports (ccfg c') = ports (ccfg c).
Proof.
  revert c. induction ops as [|op ops IH]; intros c; [done|].
  destruct (IH (adminFn randSrc osListen op c)) as (H1 & H2 & H3 & H4).
  destruct (adminFn_frame op c) as (G1 & G2 & G3 & G4).
  unfold adminSeq in *. cbn [foldl]. cbv zeta.
  rewrite H1, H2, H3, H4. done.
Qed.
End AdminFacts.

(** ** Single operations: edge cases and how they compose *)

Section AdminMore.
Context {U : Type}.
Variable randSrc : nat → nat.
Variable osListen : Z → nat → option Z.
Implicit Types (c : Cluster U) (b : broker) (pd : partData).

Lemma RemoveNode_succeeds nodeID c b :
  b ∈ bs c → node b = nodeID → (1 < length (bs c))%nat →
  (RemoveNode randSrc nodeID c).1 = None.
Proof.
  intros Hin Hn Hlen. unfold RemoveNode.
  destruct (list_find _ (bs c)) as [[i b']|] eqn:Hf.
  - case_decide; [lia|done].
  - apply list_find_None in Hf. rewrite Forall_forall in Hf. by destruct (Hf b Hin).
Qed.

Lemma assignNodeID_fresh nodeID l :
  0 ≤ nodeID → (∀ b, b ∈ l → node b ≠ nodeID) → assignNodeID nodeID l = Some nodeID.
Proof.
  intros Hpos Hfresh. unfold assignNodeID.
  destruct (nodeID >=? 0) eqn:Hge; [|lia].
  destruct (existsb _ l) eqn:He; [|done].
  apply existsb_exists in He as (b & Hin & Hb).
  apply list_elem_of_In in Hin. destruct (Hfresh b Hin). lia.
Qed.

Lemma assignNodeID_None nodeID l :
  assignNodeID nodeID l = None → 0 ≤ nodeID ∧ ∃ b, b ∈ l ∧ node b = nodeID.
Proof.
  unfold assignNodeID. destruct (nodeID >=? 0) eqn:Hge.
  - destruct (existsb _ l) eqn:He; [|done]. intros _.
    apply existsb_exists in He as (b & Hin & Hb).
    split; [lia|]. exists b. split; [by apply list_elem_of_In|lia].
  - by destruct l.
Qed.

(** X10. [AddNode] with a node ID that is not negative and that no broker
    has: when the listener can be made (on port 0 for a negative [port]),
    it returns that ID and the port bound, appends one broker with that ID
    that knows its position, counts it in [cfg.nbrokers], and reshuffles:
    every partition gets its epoch incremented (as an [int32]) and a
    leader among the brokers including the new one. *)
Theorem AddNode_fresh_id nodeID port c p :
  0 ≤ nodeID → (∀ b, b ∈ bs c → node b ≠ nodeID) →
  osListen (if port <? 0 then 0 else port) (lnNext c) = Some p →
  let r := AddNode randSrc osListen nodeID port c in
  r.1 = (nodeID, p, None)
  ∧ (∃ b, bs r.2 = bs c ++ [b] ∧ node b = nodeID ∧ lnPort (ln b) = p
          ∧ bsIdx b = length (bs c))
  ∧ nbrokers (ccfg r.2) = wrap64 (nbrokers (ccfg c) + 1)
  ∧ reshuffled c r.2.
Proof.
  intros Hpos Hfresh Hl r.
  pose proof (assignNodeID_fresh nodeID (bs c) Hpos Hfresh) as Ha.
  destruct (AddNode_cases randSrc osListen nodeID port c)
    as [[Hn _]|[(id & _ & Hl' & _)|(id & p' & c' & Ha' & Hl' & Hr & Hbs & Ht & Hn & _)]].
  - by rewrite Ha in Hn.
  - by rewrite Hl in Hl'.
  - rewrite Ha in Ha'. injection Ha' as <-. rewrite Hl in Hl'. injection Hl' as <-.
    subst r. rewrite Hr. cbn [fst snd].
    destruct (shufflePartitionsLocked_fields randSrc c') as (Hb' & Hc' & _).
    split; [done|]. split; [|split].
    + eexists. rewrite Hb', Hbs. split; [reflexivity|]. by cbn.
    + by rewrite Hc', Hn.
    + pose proof (shufflePartitionsLocked_reshuffled randSrc c') as Hre.
      intros k. specialize (Hre k). by rewrite Ht in Hre.
Qed.

(** X11. [AddNode] has two errors, each with its cause: "already
    exists" when the ID asked for is not negative and a broker has it,
    and the listener's error when the operating system refuses the port
    (0 for a negative [port]).  In both cases no broker is added,
    [cfg.nbrokers] is not changed, no listener is closed and no partition
    is touched: there is no reshuffle. *)
Theorem AddNode_error_frame nodeID port c :
  let r := AddNode randSrc osListen nodeID port c in
  let port1 := if port <? 0 then 0 else port in
  is_Some r.1.2 →
  (r.1 = (nodeID, port, Some (ErrNodeExists nodeID))
   ∧ 0 ≤ nodeID ∧ (∃ b, b ∈ bs c ∧ node b = nodeID)
   ∨ (∃ id, r.1 = (id, port1, Some (ErrListen port1))
            ∧ assignNodeID nodeID (bs c) = Some id
            ∧ osListen port1 (lnNext c) = None))
  ∧ bs r.2 = bs c ∧ tps r.2 = tps c ∧ ccfg r.2 = ccfg c
  ∧ lnClosed r.2 = lnClosed c ∧ rngPos r.2 = rngPos c.
Proof.
  intros r port1 Herr. subst r.
  destruct (AddNode_cases randSrc osListen nodeID port c)
    as [[Hn Hr]|[(id & Ha & Hl & Hr)|(id & p' & c' & _ & _ & Hr & _)]];
    rewrite Hr in *; cbn [fst snd] in *.
  - split; [|done]. left. split; [done|]. by apply assignNodeID_None.
  - split; [|done]. right. by exists id.
  - by destruct Herr.
Qed.

(** X12. Adding a broker and then removing the node ID that [AddNode]
    returned gives the broker list back as it was, with the new broker's
    listener closed, provided there was a broker before (the only broker
    cannot be removed) and no broker had that ID (the automatic ID can
    collide after a wrap-around). *)
Theorem AddNode_then_RemoveNode nodeID port c id p c1 :
  AddNode randSrc osListen nodeID port c = ((id, p, None), c1) →
  bs c ≠ [] → id ∉ nodeIDs c →
  let r := RemoveNode randSrc id c1 in
  r.1 = None ∧ bs r.2 = bs c
  ∧ lnClosed r.2 = {[lnNext c]} ∪ lnClosed c
  ∧ ∀ k, is_Some (tps r.2 !! k) ↔ is_Some (tps c !! k).
Proof.
  intros Hadd Hne Hfresh r.
  destruct (AddNode_cases randSrc osListen nodeID port c)
    as [[_ Hr]|[(id' & _ & _ & Hr)
               |(id' & p' & c' & _ & _ & Hr & Hbs & Ht & _ & _ & _ & _ & _ & Hcl)]];
    rewrite Hadd in Hr; [done|done|].
  injection Hr as -> -> ->.
  destruct (shufflePartitionsLocked_fields randSrc c')
    as (Hb1 & _ & _ & Hcl1 & _).
  set (c1 := shufflePartitionsLocked randSrc c') in *.
  set (nb := mkBroker (nextAddr c) (mkListener (lnNext c) p') id' (length (bs c))) in *.
  assert (bs c1 = bs c ++ [nb]) as Hbs1 by (by rewrite Hb1, Hbs).
  assert (1 < length (bs c1))%nat as Hlen1.
  { rewrite Hbs1, length_app. cbn [length]. destruct (bs c); [done|]. cbn. lia. }
  assert (nb ∈ bs c1) as Hin.
  { rewrite Hbs1, elem_of_app. right. by apply list_elem_of_singleton. }
  pose proof (RemoveNode_succeeds id' c1 nb Hin eq_refl Hlen1) as Hok.
  destruct (RemoveNode_cases randSrc id' c1)
    as [[Hsome _]|(i & b & lastB & c2 & Hi & Hn & Hfirst & Hlast & _ & Hr & Hbs2
                   & Ht2 & _ & _ & _ & _ & _ & Hcl2)].
  { fold r in Hok. subst r. rewrite Hok in Hsome. by destruct Hsome. }
  subst r. rewrite Hr. cbn [fst snd].
  destruct (shufflePartitionsLocked_fields randSrc c2) as (Hb3 & _ & _ & Hcl3 & _).
  assert (i = length (bs c)) as ->.
  { rewrite Hbs1 in Hi. apply lookup_app_Some in Hi as [Hi|[Hge Hi]].
    - destruct Hfresh. unfold nodeIDs. apply list_elem_of_fmap. exists b.
      split; [done|]. by apply list_elem_of_lookup_2 in Hi.
    - apply list_lookup_singleton_Some in Hi as [Hi _]. lia. }
  assert (b = nb ∧ lastB = nb) as [-> ->].
  { rewrite Hbs1 in Hi, Hlast. rewrite last_snoc in Hlast.
    rewrite list_lookup_middle in Hi by done. split; congruence. }
  split; [done|]. split; [|split].
  - rewrite Hb3, Hbs2, Hbs1, length_app. cbn [length].
    replace (length (bs c) + 1 - 1)%nat with (length (bs c)) by lia.
    rewrite insert_app_r_alt by lia. rewrite Nat.sub_diag. cbn [insert list_insert].
    by rewrite take_app_length.
  - rewrite Hcl3, Hcl2, Hcl1, Hcl. done.
  - intros k. rewrite shufflePartitionsLocked_dom, Ht2.
    unfold c1. by rewrite shufflePartitionsLocked_dom, Ht.
Qed.

(** X13. Two moves of the same partition in a row: the last one wins.
    When the second target exists, the cluster is the one the second move
    alone gives, whether the first move succeeded or not. *)
Theorem MoveTopicPartition_last_wins topic partition n1 n2 c :
  (∃ b, b ∈ bs c ∧ node b = n2) →
  (MoveTopicPartition topic partition n2
     (MoveTopicPartition topic partition n1 c).2).2
  = (MoveTopicPartition topic partition n2 c).2.
Proof.
  intros Hn2.
  destruct (MoveTopicPartition_cases topic partition n1 c)
    as [[_ ->]|(br & pd & _ & _ & Hp & ->)]; [done|].
  cbn [snd]. unfold MoveTopicPartition, getp. cbn [bs set_tps tps].
  apply find_node_Some in Hn2 as (br2 & -> & _).
  rewrite lookup_insert_eq, Hp. cbn [snd epoch set_tps tps]. 
  unfold set_tps. cbn. by rewrite insert_insert_eq.
Qed.

(** X14. Removing the broker that is the controller leaves the controller
    as it was: it then names a broker that is not in [c.bs] any more. *)
Theorem RemoveNode_controller_stale nodeID c b :
  NoDup (baddr <$> bs c) → NoDup (nodeIDs c) →
  b ∈ bs c → node b = nodeID → controller c = Some (baddr b) →
  (1 < length (bs c))%nat →
  let r := RemoveNode randSrc nodeID c in
  r.1 = None ∧ controller r.2 = Some (baddr b)
  ∧ ∀ b', b' ∈ bs r.2 → baddr b' ≠ baddr b.
Proof.
  intros Haddr Hids Hin Hn Hctl Hlen r.
  pose proof (RemoveNode_succeeds nodeID c b Hin Hn Hlen) as Hok. fold r in Hok.
  destruct (RemoveNode_cases randSrc nodeID c)
    as [[Hsome _]|(i & b0 & lastB & c' & Hi & Hn0 & _ & Hlast & _ & Hr & Hbs
                   & _ & _ & _ & Hc & _)].
  { fold r in Hsome. rewrite Hok in Hsome. by destruct Hsome. }
  fold r in Hr. rewrite Hr. cbn [fst snd].
  destruct (shufflePartitionsLocked_fields randSrc c')
    as (Hb' & _ & _ & _ & _ & _ & Hc' & _).
  split; [done|]. split; [by rewrite Hc', Hc|].
  apply list_elem_of_lookup in Hin as [j Hj].
  assert (i = j) as <-.
  { apply (NoDup_lookup (nodeIDs c) i j nodeID); [done|..]; unfold nodeIDs;
      rewrite list_lookup_fmap; [rewrite Hi|rewrite Hj]; cbn; congruence. }
  assert (b0 = b) as -> by congruence.
  intros b' Hb'in. rewrite Hb', Hbs in Hb'in.
  apply list_elem_of_lookup in Hb'in as [k Hk].
  apply lookup_take_Some in Hk as [Hk Hlt].
  apply last_Some in Hlast as [l' Hl'].
  assert (length (bs c) = S (length l')) as Hlen'.
  { rewrite Hl', length_app. cbn. lia. }
  assert (bs c !! length l' = Some lastB) as HlastAt.
  { rewrite Hl'. by rewrite list_lookup_middle. }
  intros Heq.
  destruct (decide (i = k)) as [->|Hne].
  - rewrite list_lookup_insert_eq in Hk by (by apply lookup_lt_Some in Hi).
    injection Hk as <-. cbn [set_bsIdx baddr] in Heq.
    assert (length l' = k); [|lia].
    apply (NoDup_lookup (baddr <$> bs c) (length l') k (baddr b)); [done|..];
      rewrite list_lookup_fmap; [rewrite HlastAt|rewrite Hi]; cbn; congruence.
  - rewrite list_lookup_insert_ne in Hk by done.
    apply Hne.
    apply (NoDup_lookup (baddr <$> bs c) i k (baddr b)); [done|..];
      rewrite list_lookup_fmap; [rewrite Hi|rewrite Hk]; cbn; congruence.
Qed.

End AdminMore.

(** ** The event loop: replies *)

Section LoopMore.
Context {U : Type}.
Variable hs : Handlers U.
Implicit Types (s : loopState U) (creq : clientReq).

(** What [tryControl] returns is what the last function it called
    returned, and [(nil, nil, false)] when it called none. *)
Lemma tryFns_res_last key kreq all fns i (st : tried U) new :
  t_calls (tryFns key kreq all i fns st) = t_calls st ++ new →
  match last new with
  | None => tryFns key kreq all i fns st = st
  | Some e => t_res (tryFns key kreq all i fns st) = entryRes kreq e
  end.
Proof.
  intros Hcalls.
  destruct (tryFns_log key kreq all fns i st) as (new' & Hc & _ & _ & Hlast).
  rewrite Hc in Hcalls. apply app_inv_head in Hcalls. subst new'.
  destruct (last new) as [e|]; [by destruct Hlast|by destruct Hlast].
Qed.

Lemma tryControl_res_last kreq (c : Cluster U) u :
  let t := tryControl kreq c u in
  t_res t = match last (t_calls t) with
            | None => (None, None, false)
            | Some e => entryRes kreq e
            end.
Proof.
  unfold tryControl. case_decide as Hsz; [done|].
  set (st0 := mkTried (None, None, false) c u []).
  set (keyFns := controlAt c (Key kreq)).
  destruct (tryFns_log (Key kreq) kreq keyFns keyFns 0 st0) as (new1 & Hc1 & _).
  pose proof (tryFns_res_last (Key kreq) kreq keyFns keyFns 0 st0 new1 Hc1) as H1.
  set (st1 := tryFns (Key kreq) kreq keyFns 0 keyFns st0) in *.
  cbn [t_calls st0 app] in Hc1.
  assert (t_res st1 = match last (t_calls st1) with
                      | None => (None, None, false)
                      | Some e => entryRes kreq e
                      end) as Hst1.
  { rewrite Hc1. destruct (last new1); [done|by rewrite H1]. }
  destruct (res_handled (t_res st1)) eqn:Hh; [done|].
  set (anyFns := controlAt (t_c st1) (-1)).
  destruct (tryFns_log (-1) kreq anyFns anyFns 0 st1) as (new2 & Hc2 & _).
  pose proof (tryFns_res_last (-1) kreq anyFns anyFns 0 st1 new2 Hc2) as H2.
  cbv zeta. rewrite Hc2.
  destruct new2 as [|e2 new2 _] using rev_ind.
  - cbn [last] in H2. rewrite H2, app_nil_r. exact Hst1.
  - rewrite last_snoc in H2. by rewrite app_assoc, last_snoc.
Qed.

(** With no function under the request's key and none under the wildcard,
    [tryControl] calls nothing and leaves the cluster as it is, whether
    or not the map has entries. *)
Lemma tryControl_no_fns kreq (c : Cluster U) u :
  controlAt c (Key kreq) = [] → controlAt c (-1) = [] →
  tryControl kreq c u = mkTried (None, None, false) c u [].
Proof.
  intros Hk Ha. unfold tryControl. case_decide; [done|].
  rewrite Hk. cbn [tryFns t_res res_handled snd t_c]. by rewrite Ha.
Qed.

Lemma dispatch_unsupported creq w r (c : Cluster U) :
  Key (kreq creq) ∉ supportedKeys →
  dispatch hs creq w r c
  = ((res_kresp r, Some (ErrUnhandledKey (Key (kreq creq))), c),
     EvUnhandled (Key (kreq creq))).
Proof.
  intros Hk. unfold dispatch.
  assert (∀ x, x ∈ supportedKeys → (Key (kreq creq) =? x) = false) as Hne.
  { intros x Hx. apply Z.eqb_neq. by intros <-. }
  rewrite !Hne
    by (unfold supportedKeys;
        repeat first [apply list_elem_of_here|apply list_elem_of_further]).
  done.
Qed.

(** X16. A request whose key [run] has no handler for, and that no
    control function handles: no handler runs and the cluster is as the
    control functions left it; the reply carries the "unhandled key"
    error and, as its response, what the last control function called for
    the request returned (nil when none was called): the default case of
    the switch assigns the error only.  The reply is never empty, so when
    the send runs it is put on the connection's queue. *)
Theorem unsupported_key_reply creq w s :
  let rq := kreq creq in
  let t := tryControl rq (l_c s) (l_u s) in
  let kr := match last (t_calls t) with
            | None => None
            | Some e => res_kresp (entryRes rq e)
            end in
  let er := Some (ErrUnhandledKey (Key rq)) in
  let conn := ccId (cc creq) in
  Key rq ∉ supportedKeys → res_handled (t_res t) = false →
  handle hs creq w s
  = (kr, er,
     mkLoop (t_c t) (t_u t) (respCh s) (cleaned s)
            (l_log s ++ map (λ e, EvControl e.1.1 e.1.2) (t_calls t)
                    ++ [EvUnhandled (Key rq)]))
  ∧ respCh (process hs creq w SendRuns s).1
    = <[conn := default [] (respCh s !! conn) ++ [mkClientResp kr (corr creq) er]]>
        (respCh s)
  ∧ (process hs creq w SendRuns s).2 = true
  ∧ (process hs creq w DieRuns s).2 = false.
Proof.
  intros rq t kr er conn Hk Hun.
  assert (res_kresp (t_res t) = kr) as Hkr.
  { subst kr t. rewrite tryControl_res_last. by destruct (last _). }
  assert (handle hs creq w s
          = (kr, er,
             mkLoop (t_c t) (t_u t) (respCh s) (cleaned s)
                    (l_log s ++ map (λ e, EvControl e.1.1 e.1.2) (t_calls t)
                            ++ [EvUnhandled (Key rq)]))) as Hh.
  { unfold handle. fold rq t. rewrite Hun.
    rewrite (dispatch_unsupported creq w (t_res t) (t_c t) Hk).
    fold rq. rewrite Hkr, <- app_assoc. done. }
  split; [done|]. unfold process. rewrite Hh. unfold afterControl, er.
  destruct kr; cbn [fst snd respCh]; done.
Qed.

(** X17. A request for which no control function is registered, neither
    under its key nor under the wildcard, goes straight to the switch: no
    control function is called, the registry is not changed, and the
    handler of the key gets the cluster as it was. *)
Theorem no_control_plain_dispatch creq w s :
  controlAt (l_c s) (Key (kreq creq)) = [] → controlAt (l_c s) (-1) = [] →
  let d := dispatch hs creq w (None, None, false) (l_c s) in
  handle hs creq w s
  = (d.1.1.1, d.1.1.2,
     mkLoop d.1.2 (l_u s) (respCh s) (cleaned s) (l_log s ++ [d.2])).
Proof.
  intros Hk Ha d. unfold handle.
  rewrite (tryControl_no_fns (kreq creq) (l_c s) (l_u s) Hk Ha).
  cbn [t_res t_c t_u t_calls res_handled snd map]. fold d.
  destruct d as [[[kr er] c'] ev]. cbn [fst snd]. by rewrite app_nil_r.
Qed.

(** One iteration puts at most one reply on a connection's queue, at its
    end, and then it answers the request the iteration worked on. *)
Lemma runIter_reply it sel s conn :
  let r := runIter hs it sel s in
  default [] (respCh r.1 !! conn) = default [] (respCh s !! conn)
  ∨ ∃ creq resp,
      reqOf it = Some creq ∧ answers conn creq resp
      ∧ default [] (respCh r.1 !! conn) = default [] (respCh s !! conn) ++ [resp].
Proof.
  assert (∀ creq w s0, respCh s0 = respCh s →
            let r := process hs creq w sel s0 in
            default [] (respCh r.1 !! conn) = default [] (respCh s !! conn)
            ∨ ∃ resp, answers conn creq resp
                ∧ default [] (respCh r.1 !! conn)
                  = default [] (respCh s !! conn) ++ [resp]) as Hproc.
  { intros creq w s0 Hs0. unfold process.
    destruct (handle_frame hs 0 creq w s0) as (Hresp & _).
    destruct (handle hs creq w s0) as [[kr er] s1]. cbn [snd] in Hresp.
    rewrite Hs0 in Hresp. unfold afterControl.
    destruct (decide (ccId (cc creq) = conn)) as [Hc|Hc].
    - destruct kr as [k|], er as [e|], sel; cbn [fst respCh];
        rewrite ?Hresp; try (by left);
        right; eexists; rewrite Hc, lookup_insert_eq; cbn [default];
        (split; [|reflexivity]); (split; [done|]); (split; [done|]);
        cbn; by intros [? ?].
    - destruct kr as [k|], er as [e|], sel; cbn [fst respCh];
        rewrite ?Hresp, ?lookup_insert_ne by done; by left. }
  destruct it as [creq|w| |fn]; cbn [runIter reqOf].
  - destruct (Hproc creq None s eq_refl) as [H|(resp & H1 & H2)]; [by left|].
    right. by exists creq, resp.
  - case_decide as Hcl; [by left|].
    destruct (Hproc (wcreq w) (Some w) (cleanup w s) eq_refl)
      as [H|(resp & H1 & H2)]; [by left|].
    right. by exists (wcreq w), resp.
  - by left.
  - by left.
Qed.

(** X18. Whatever the loop receives, on every connection the queue of
    replies only grows at its end, and what is added answers, one reply
    each and in the order the loop received them, some of the requests of
    that connection: no reply is put on another connection's queue, none
    is made up, none overtakes an earlier one, and no request is answered
    twice. *)
Theorem replies_follow_requests sched s conn :
  ∃ answered added,
    answered `sublist_of` reqsOf sched
    ∧ default [] (respCh (run hs sched s) !! conn)
      = default [] (respCh s !! conn) ++ added
    ∧ Forall2 (answers conn) answered added.
Proof.
  revert s. induction sched as [|[it sel] rest IH]; intros s.
  { exists [], []. rewrite app_nil_r. split; [done|]. split; [done|constructor]. }
  cbn [run]. unfold reqsOf. cbn [omap list_omap fst]. fold (reqsOf rest).
  pose proof (runIter_reply it sel s conn) as Hit.
  destruct (runIter hs it sel s) as [s' go]. cbn [fst] in Hit.
  assert (∃ answered added,
            answered `sublist_of` reqsOf rest
            ∧ default [] (respCh (if go then run hs rest s' else s') !! conn)
              = default [] (respCh s' !! conn) ++ added
            ∧ Forall2 (answers conn) answered added)
    as (answered & added & Hsub & Hadd & Hall).
  { destruct go; [apply IH|]. exists [], []. rewrite app_nil_r.
    split; [apply sublist_nil_l|]. split; [done|constructor]. }
  destruct Hit as [Hsame|(creq & resp & Hreq & Hans & Hone)].
  - exists answered, added. rewrite Hadd, Hsame. split; [|done].
    destruct (reqOf it); [by apply sublist_cons|done].
  - exists (creq :: answered), (resp :: added).
    rewrite Hadd, Hone, <- app_assoc, Hreq. split; [by apply sublist_skip|].
    split; [done|by constructor].
Qed.
End LoopMore.

(** * The further facts at concrete inputs *)

(** Under the metadata key: a function that registers two others while it
    runs, then one that handles.  The wildcard list gained the function
    registered for it; the list of the key lost the function at index 1,
    and the one registered for it with it. *)
Lemma tryControl_registry_witness :
  let c := ex_withControl {[ kmsgMetadata := [ex_adder; ex_once; ex_keep] ]} in
  let rq := kreq ex_metadataReq in
  let t := tryControl rq c tt in
  consumedKey t = Some kmsgMetadata
  ∧ controlAt (t_c t) (-1) = [ex_silent]
  ∧ controlAt (t_c t) (-1) = controlAt c (-1) ++ regsOf rq (-1) (t_calls t)
  ∧ controlAt (t_c t) kmsgMetadata = [ex_adder; ex_keep]
  ∧ ∃ i, (S i = length (t_calls t))%nat
         ∧ controlAt (t_c t) kmsgMetadata
           = take i (controlAt c kmsgMetadata) ++ drop (S i) (controlAt c kmsgMetadata).
Proof.
  intros c rq t. split; [reflexivity|]. split; [reflexivity|].
  destruct (tryControl_registry rq c tt) as [Hother Hkey].
  split; [apply Hother; discriminate|]. split; [reflexivity|].
  apply Hkey; [discriminate|reflexivity].
Defined.

(** [KeepControl] called from outside before the request arrives: the
    registry ends up the same. *)
Lemma tryControl_ignores_stale_keep_witness :
  let c := ex_withControl {[ kmsgMetadata := [ex_pass; ex_once] ]} in
  let rq := kreq ex_metadataReq in
  t_calls (tryControl rq c tt) ≠ []
  ∧ t_c (tryControl rq (KeepControl c) tt) = t_c (tryControl rq c tt).
Proof.
  intros c rq. split; [discriminate|].
  destruct (tryControl_ignores_stale_keep rq c tt true) as (_ & _ & _ & _ & H).
  apply H. discriminate.
Defined.

(** Two metadata requests in a row on a list of three functions the second
    of which handles: the second request is offered the first and the
    third only. *)
Lemma next_request_skips_consumed_witness :
  let c := ex_withControl {[ kmsgMetadata := [ex_pass; ex_once; ex_keep] ]} in
  let rq := kreq ex_metadataReq in
  let t := tryControl rq c tt in
  let keyFns := controlAt c kmsgMetadata in
  (t_calls (tryControl rq (t_c t) tt)).*1
  = [(kmsgMetadata, ex_pass); (kmsgMetadata, ex_keep)]
  ∧ ∃ i anyFns,
      (S i = length (t_calls t))%nat
      ∧ (t_calls (tryControl rq (t_c t) tt)).*1 `prefix_of`
          (pair kmsgMetadata <$> (take i keyFns ++ drop (S i) keyFns))
          ++ (pair (-1) <$> anyFns)
      ∧ ∀ e, e ∈ t_calls (tryControl rq (t_c t) tt) → e.1.1 = kmsgMetadata →
             e.1.2 ∈ take i keyFns ++ drop (S i) keyFns.
Proof.
  intros c rq t keyFns. split; [reflexivity|].
  apply (next_request_skips_consumed rq c tt rq tt);
    [discriminate|reflexivity|reflexivity].
Defined.

(** Two ports given, with [nbrokers] set to 7: two brokers. *)
Lemma NewCluster_ok_witness :
  ∃ c : Cluster unit,
    NewCluster ex_os (mkCfg 7 [9092; 0]) (0, 0, 0)%nat = NewOk c
    ∧ (0 < 2)%nat ∧ length (bs c) = 2%nat ∧ nbrokers (ccfg c) = 2
    ∧ ports (ccfg c) = [9092; 0]
    ∧ (∀ i b, bs c !! i = Some b →
              node b = wrap32 (Z.of_nat i) ∧ bsIdx b = i
              ∧ ex_os (portAt (mkCfg 7 [9092; 0]) i) (0 + i) = Some (lnPort (ln b)))
    ∧ (∃ b, last (bs c) = Some b ∧ controller c = Some (baddr b))
    ∧ control c = ∅ ∧ dead c = false.
Proof.
  eexists. split; [reflexivity|].
  apply (NewCluster_ok ex_os (mkCfg 7 [9092; 0]) 0 0 0). reflexivity.
Defined.

(** No broker asked for: a panic.  The default three brokers when the
    operating system refuses the fourth listener of the world and one was
    made before: a panic again, after the two listeners made were
    closed. *)
Lemma NewCluster_outcome_witness :
  NewCluster (U:=unit) ex_os (mkCfg 0 []) (0, 0, 0)%nat = NewPanic
  ∧ (∃ c, NewCluster (U:=unit) ex_os3 defaultCfg (0, 0, 1)%nat
          = NewPanicClose (ErrListen 0) (Close c)
          ∧ dead c = false ∧ length (bs c) = 2%nat
          ∧ dead (Close c) = true ∧ bs (Close c) = bs c
          ∧ ∀ b, b ∈ bs c → lnId (ln b) ∈ lnClosed (Close c))
  ∧ ∃ c, NewCluster (U:=unit) ex_os3 defaultCfg (0, 0, 0)%nat = NewOk c.
Proof.
  split; [|split].
  - destruct (NewCluster_outcome (U:=unit) ex_os (mkCfg 0 []) 0 0 0) as (H & _).
    apply H. reflexivity.
  - destruct (NewCluster_outcome (U:=unit) ex_os3 defaultCfg 0 0 1) as (_ & H & _).
    apply (H 2%nat).
    + vm_compute. lia.
    + intros [|[|i]] Hi; [by eexists|by eexists|lia].
    + reflexivity.
  - destruct (NewCluster_outcome (U:=unit) ex_os3 defaultCfg 0 0 0) as (_ & _ & H).
    apply H.
    + vm_compute. lia.
    + intros [|[|[|i]]] Hi; [by eexists|by eexists|by eexists|].
      vm_compute in Hi. lia.
Defined.

(** A run of operations on the cluster of three brokers. *)
Lemma admin_keeps_positions_witness :
  let c' := adminSeq ex_rand ex_os ex_ops ex_topo in
  bsIdxOk ex_topo ∧ bs ex_topo ≠ [] ∧ bsIdxOk c' ∧ bs c' ≠ []
  ∧ nodeIDs c' = [3; 1; 2].
Proof.
  intros c'.
  assert (bsIdxOk ex_topo) as Hidx.
  { intros [|[|[|i]]] b Hb; cbn in Hb; [by injection Hb as <-..|done]. }
  assert (bs ex_topo ≠ []) as Hne by discriminate.
  split; [done|]. split; [done|].
  destruct (admin_keeps_positions ex_rand ex_os ex_ops ex_topo Hidx Hne) as [H1 H2].
  split; [exact H1|]. split; [exact H2|reflexivity].
Defined.

Lemma admin_keeps_leaders_live_witness :
  let c' := adminSeq ex_rand ex_os ex_ops ex_topo in
  leadersLive ex_topo
  ∧ leadersLive c'
  ∧ ∀ k, is_Some (tps c' !! k) ↔ is_Some (tps ex_topo !! k).
Proof.
  intros c'.
  assert (leadersLive ex_topo) as Hlive.
  { intros k pd Hk. right. cbn [tps ex_topo] in Hk. unfold ex_tps in Hk.
    apply lookup_insert_Some in Hk as [[_ <-]|[_ Hk]].
    - exists (ex_broker 0). split; [apply list_elem_of_here|reflexivity].
    - apply lookup_singleton_Some in Hk as [_ <-].
      exists (ex_broker 1).
      split; [apply list_elem_of_further, list_elem_of_here|reflexivity]. }
  split; [done|].
  apply (admin_keeps_leaders_live ex_rand ex_os ex_ops ex_topo Hlive).
Defined.

Lemma admin_keeps_count_witness :
  countOk ex_topo
  ∧ countOk (adminSeq ex_rand ex_os ex_ops ex_topo)
  ∧ nbrokers (ccfg (adminSeq ex_rand ex_os ex_ops ex_topo)) = 3.
Proof.
  assert (countOk ex_topo) as Hok by reflexivity.
  split; [done|]. split; [|reflexivity].
  apply (admin_keeps_count ex_rand ex_os ex_ops ex_topo Hok).
  vm_compute. reflexivity.
Defined.

(** Node 7 added with a negative port: port 0 is asked for. *)
Lemma AddNode_fresh_id_witness :
  let r := AddNode ex_rand ex_os 7 (-5) ex_topo in
  r.1 = (7, 49155, None)
  ∧ (∃ b, bs r.2 = bs ex_topo ++ [b] ∧ node b = 7 ∧ lnPort (ln b) = 49155
          ∧ bsIdx b = length (bs ex_topo))
  ∧ nbrokers (ccfg r.2) = wrap64 (nbrokers (ccfg ex_topo) + 1)
  ∧ reshuffled ex_topo r.2.
Proof.
  apply (AddNode_fresh_id ex_rand ex_os 7 (-5) ex_topo 49155).
  - lia.
  - apply Forall_forall. repeat (constructor; [discriminate|]). constructor.
  - reflexivity.
Defined.

(** The operating system refuses the listener: the node ID that would
    have been given comes back with the error. *)
Lemma AddNode_error_frame_witness :
  let r := AddNode ex_rand ex_os3 (-1) (-1) ex_topo in
  r.1 = (3, 0, Some (ErrListen 0))
  ∧ bs r.2 = bs ex_topo ∧ tps r.2 = tps ex_topo ∧ ccfg r.2 = ccfg ex_topo
  ∧ lnClosed r.2 = lnClosed ex_topo ∧ rngPos r.2 = rngPos ex_topo.
Proof.
  intros r. split; [reflexivity|].
  apply (AddNode_error_frame ex_rand ex_os3 (-1) (-1) ex_topo).
  by eexists.
Defined.

Lemma AddNode_then_RemoveNode_witness :
  let c1 := (AddNode ex_rand ex_os (-1) 0 ex_topo).2 in
  let r := RemoveNode ex_rand 3 c1 in
  AddNode ex_rand ex_os (-1) 0 ex_topo = ((3, 49155, None), c1)
  ∧ r.1 = None ∧ bs r.2 = bs ex_topo
  ∧ lnClosed r.2 = {[lnNext ex_topo]} ∪ lnClosed ex_topo
  ∧ ∀ k, is_Some (tps r.2 !! k) ↔ is_Some (tps ex_topo !! k).
Proof.
  intros c1 r. split; [reflexivity|].
  apply (AddNode_then_RemoveNode ex_rand ex_os (-1) 0 ex_topo 3 49155 c1).
  - reflexivity.
  - discriminate.
  - apply (bool_decide_unpack _). vm_compute. exact I.
Defined.

Lemma MoveTopicPartition_last_wins_witness :
  (MoveTopicPartition "t" 0 1 (MoveTopicPartition "t" 0 2 ex_topo).2).2
  = (MoveTopicPartition "t" 0 1 ex_topo).2.
Proof.
  apply (MoveTopicPartition_last_wins "t" 0 2 1 ex_topo).
  exists (ex_broker 1).
  split; [apply list_elem_of_further, list_elem_of_here|reflexivity].
Defined.

(** The controller of the cluster of three brokers is the last one, node
    2; after it is removed the controller is still that broker. *)
Lemma RemoveNode_controller_stale_witness :
  let r := RemoveNode ex_rand 2 ex_topo in
  r.1 = None ∧ controller r.2 = Some (baddr (ex_broker 2))
  ∧ ∀ b', b' ∈ bs r.2 → baddr b' ≠ baddr (ex_broker 2).
Proof.
  apply (RemoveNode_controller_stale ex_rand 2 ex_topo (ex_broker 2)).
  - apply (bool_decide_unpack _). vm_compute. exact I.
  - apply (bool_decide_unpack _). vm_compute. exact I.
  - do 2 apply list_elem_of_further. apply list_elem_of_here.
  - reflexivity.
  - reflexivity.
  - vm_compute. lia.
Defined.

Lemma Close_spec_witness :
  lnClosed (Close ex_topo) = lnClosed ex_topo ∪ list_to_set [0; 1; 2]%nat
  ∧ Close (Close ex_topo) = Close ex_topo.
Proof.
  destruct (Close_spec ex_topo) as (_ & Hcl & _ & _ & _ & _ & Hid).
  split; [apply Hcl; reflexivity|exact Hid].
Defined.

(** A request with the key 99, and a control function registered for it
    that passes but returns a response: the reply carries that response
    beside the error. *)
Lemma unsupported_key_reply_witness :
  let s := ex_loop (ex_withControl {[ 99 := [ex_leaky] ]}) in
  let r := process ex_hs ex_unknownReq None SendRuns s in
  respCh r.1 !! 5%nat
  = Some [mkClientResp (Some (mkResponse 9)) 14 (Some (ErrUnhandledKey 99))]
  ∧ respCh r.1
    = <[5%nat := default [] (respCh s !! 5%nat)
                 ++ [mkClientResp (Some (mkResponse 9)) 14 (Some (ErrUnhandledKey 99))]]>
        (respCh s)
  ∧ r.2 = true.
Proof.
  intros s r. split; [reflexivity|].
  destruct (unsupported_key_reply ex_hs ex_unknownReq None s) as (_ & H1 & H2 & _).
  - apply (bool_decide_unpack _). vm_compute. exact I.
  - reflexivity.
  - split; [exact H1|exact H2].
Defined.

(** A metadata request while a function is registered for produce
    requests only. *)
Lemma no_control_plain_dispatch_witness :
  let s := ex_loop (ex_withControl {[ kmsgProduce := [ex_once] ]}) in
  handle ex_hs ex_metadataReq None s
  = (Some (mkResponse 1), None,
     mkLoop (l_c s) tt ∅ ∅ [EvHandler kmsgMetadata]).
Proof.
  intros s.
  apply (no_control_plain_dispatch ex_hs ex_metadataReq None s); reflexivity.
Defined.
